(** * QskStackBox: index state machine and size-hint aggregation

    A shallow embedding of [src/layouts/QskStackBox.cpp].

    Conventions of the embedding.
    - [int] is [Z].  The only arithmetic on indices is [currentIndex--] and
      [newIndex--], executed when the decremented value is strictly above
      another [int] or equal to a non-negative count, so no operation can
      leave the range of [int] and no wrap-around is written out.
    - [qreal] is [Q].  The code only compares and copies [qreal] values
      (it never adds or multiplies them), and on finite doubles the
      comparisons agree with those of the rationals.  NaN and the
      infinities are outside the embedding.
    - A [QskLayoutItem*] handed to a hook is the position of that layout
      item in the engine's item list; a [QQuickItem*] is reached through
      the layout item holding it, and [setVisible] updates it in place.
    - Signals are appended to a log kept in the state, oldest first. *)

From Stdlib Require Import ZArith QArith Lqa Lia.
From stdpp Require Import base list.

Open Scope Z_scope.

(** ** Data model *)

(** [Qt::Orientation]: [Qt::Horizontal = 0x1], [Qt::Vertical = 0x2]. *)
Inductive Orientation : Set := Horizontal | Vertical.

Definition orientationFlag (o : Orientation) : Z :=
  match o with Horizontal => 1 | Vertical => 2 end.

(** [Qt::SizeHint] *)
Inductive SizeHint : Set := MinimumSize | PreferredSize | MaximumSize.

(** [QskLayoutConstraint::Type] *)
Inductive ConstraintType : Set := Unconstrained | WidthForHeight | HeightForWidth.

Record QSizeF : Type := mkSize { width : Q; height : Q }.

(** A child item.  [ident] stands for the address of the object;
    [itemHeightForWidth] and [itemWidthForHeight] are what
    [QskLayoutConstraint::heightForWidth( item, w )] and
    [QskLayoutConstraint::widthForHeight( item, h )] answer for it (these
    two functions live in QskLayoutConstraint.cpp and are taken as data of
    the item). *)
Record QQuickItem : Type := mkItem {
  ident : nat;
  visible : bool;
  itemHeightForWidth : Q -> Q;
  itemWidthForHeight : Q -> Q
}.

(** [QskLayoutItem]: the wrapper the engine keeps for each entry.  The
    three queries used by the size-hint computation are fields. *)
Record QskLayoutItem : Type := mkLayoutItem {
  item : option QQuickItem;
  retainSizeWhenHidden : bool;
  hasDynamicConstraint : bool;
  dynamicConstraintOrientation : Orientation;
  sizeHint : SizeHint -> QSizeF -> QSizeF
}.

(** Calls received by a [QskStackBoxAnimator]. *)
Inductive AnimatorCall : Set :=
  | Stop
  | SetStartIndex (i : Z)
  | SetEndIndex (i : Z)
  | SetWindow (w : option nat)
  | Start.

(** Modelled from the spec: QskStackBoxAnimator (QskStackBoxAnimator.cpp is
    not part of the sources).  The container only needs the capability set
    [stop], [setStartIndex], [setEndIndex], [setWindow], [start]; the
    animator toggles the visibility of the two children over its run, after
    [setCurrentIndex] has returned, so a call changes nothing but the
    animator itself.  An animator is its identity and the calls it
    received, oldest first. *)
Record QskStackBoxAnimator : Type := mkAnimator {
  animatorId : nat;
  calls : list AnimatorCall
}.

(** The container: the engine's ordered item list, [m_data], the three
    facts about the scene the code asks for ([window()], [isVisible()],
    [isInitiallyPainted()]), the [adjustItemAt] requests and the emitted
    [currentIndexChanged] signals. *)
Record QskStackBox : Type := mkStackBox {
  engine : list QskLayoutItem;
  currentIndex : Z;
  animator : option QskStackBoxAnimator;
  window : option nat;
  isVisible : bool;
  isInitiallyPainted : bool;
  adjusted : list Z;
  currentIndexChanged : list Z
}.

(** Field updates. *)
Definition withEngine (e : list QskLayoutItem) (s : QskStackBox) : QskStackBox :=
  mkStackBox e (currentIndex s) (animator s) (window s) (isVisible s)
    (isInitiallyPainted s) (adjusted s) (currentIndexChanged s).

Definition withCurrentIndex (i : Z) (s : QskStackBox) : QskStackBox :=
  mkStackBox (engine s) i (animator s) (window s) (isVisible s)
    (isInitiallyPainted s) (adjusted s) (currentIndexChanged s).

Definition withAnimator (a : option QskStackBoxAnimator) (s : QskStackBox) : QskStackBox :=
  mkStackBox (engine s) (currentIndex s) a (window s) (isVisible s)
    (isInitiallyPainted s) (adjusted s) (currentIndexChanged s).

Definition withScene (w : option nat) (v p : bool) (s : QskStackBox) : QskStackBox :=
  mkStackBox (engine s) (currentIndex s) (animator s) w v p
    (adjusted s) (currentIndexChanged s).

(** [Q_EMIT currentIndexChanged( i )] *)
Definition emitCurrentIndexChanged (i : Z) (s : QskStackBox) : QskStackBox :=
  mkStackBox (engine s) (currentIndex s) (animator s) (window s) (isVisible s)
    (isInitiallyPainted s) (adjusted s) (currentIndexChanged s ++ [i]).

(** [adjustItemAt( i )]: a geometry update of the engine, recorded. *)
Definition adjustItemAt (i : Z) (s : QskStackBox) : QskStackBox :=
  mkStackBox (engine s) (currentIndex s) (animator s) (window s) (isVisible s)
    (isInitiallyPainted s) (adjusted s ++ [i]) (currentIndexChanged s).

(** The constructor: [PrivateData() : currentIndex( -1 )], no animator, no
    children.  The scene facts are those of the parent the box is built
    under. *)
Definition newStackBox (w : option nat) (v p : bool) : QskStackBox :=
  mkStackBox [] (-1) None w v p [] [].

(** ** Readers inherited from the layout box *)

(** Modelled from the spec: [itemCount()], [itemAtIndex( i )] and
    [indexOf( item )] of the indexed layout box (QskLayoutBox.cpp and the
    engine are not part of the sources): an ordered child list, an index
    outside of it answers "no item", an item that is not a child answers
    [-1]. *)
Definition itemCount (s : QskStackBox) : Z := Z.of_nat (length (engine s)).

Definition layoutItemAt (s : QskStackBox) (i : Z) : option QskLayoutItem :=
  if i <? 0 then None else engine s !! Z.to_nat i.

Definition itemAtIndex (s : QskStackBox) (i : Z) : option QQuickItem :=
  layoutItemAt s i ≫= item.

Definition holds (p : nat) (li : QskLayoutItem) : bool :=
  match item li with
  | Some it => Nat.eqb (ident it) p
  | None => false
  end.

Fixpoint indexFrom (p : nat) (l : list QskLayoutItem) (i : Z) : Z :=
  match l with
  | [] => -1
  | li :: l' => if holds p li then i else indexFrom p l' (i + 1)
  end.

(** [None] is the null pointer. *)
Definition indexOf (s : QskStackBox) (p : option nat) : Z :=
  match p with
  | Some p => indexFrom p (engine s) 0
  | None => -1
  end.

(** ** Visibility of a child *)

Definition setVisible (b : bool) (it : QQuickItem) : QQuickItem :=
  mkItem (ident it) b (itemHeightForWidth it) (itemWidthForHeight it).

Definition setItemVisible (b : bool) (li : QskLayoutItem) : QskLayoutItem :=
  mkLayoutItem (setVisible b <$> item li) (retainSizeWhenHidden li)
    (hasDynamicConstraint li) (dynamicConstraintOrientation li) (sizeHint li).

Definition setRetainSizeWhenHidden (b : bool) (li : QskLayoutItem) : QskLayoutItem :=
  mkLayoutItem (item li) b
    (hasDynamicConstraint li) (dynamicConstraintOrientation li) (sizeHint li).

(** [auto it = itemAtIndex( i ); if ( it ) it->setVisible( b );] *)
Definition setVisibleAt (i : Z) (b : bool) (s : QskStackBox) : QskStackBox :=
  if i <? 0 then s
  else withEngine (alter (setItemVisible b) (Z.to_nat i) (engine s)) s.

(** ** The animator slot *)

Definition received (c : AnimatorCall) (a : QskStackBoxAnimator) : QskStackBoxAnimator :=
  mkAnimator (animatorId a) (calls a ++ [c]).

(** [m_data->animator->c()], on an attached animator. *)
Definition tellAnimator (c : AnimatorCall) (s : QskStackBox) : QskStackBox :=
  withAnimator (received c <$> animator s) s.

Definition sameAnimator (a b : option QskStackBoxAnimator) : bool :=
  match a, b with
  | None, None => true
  | Some x, Some y => Nat.eqb (animatorId x) (animatorId y)
  | _, _ => false
  end.

(** [QskStackBox::setAnimator]: the old animator is stopped and deleted,
    the new one is stopped before it is stored. *)
Definition setAnimator (a : option QskStackBoxAnimator) (s : QskStackBox) : QskStackBox :=
  if sameAnimator (animator s) a then s
  else withAnimator (received Stop <$> a) s.

(** [QskStackBox::effectiveAnimator]: the skin never supplies one. *)
Definition effectiveAnimator (s : QskStackBox) : option QskStackBoxAnimator :=
  match animator s with
  | Some a => Some a
  | None => None
  end.

(** [QskStackBox::currentItem] *)
Definition currentItem (s : QskStackBox) : option QQuickItem :=
  itemAtIndex s (currentIndex s).

(** ** The index state machine *)

(** The clamp at the head of [setCurrentIndex]. *)
Definition clampIndex (s : QskStackBox) (index : Z) : Z :=
  if (index <? 0) || (index >=? itemCount s) then -1 else index.

(** [window() && isVisible() && isInitiallyPainted() && animator] *)
Definition animated (s : QskStackBox) : bool :=
  match window s, effectiveAnimator s with
  | Some _, Some _ => isVisible s && isInitiallyPainted s
  | _, _ => false
  end.

(** [QskStackBox::setCurrentIndex] *)
Definition setCurrentIndex (index : Z) (s : QskStackBox) : QskStackBox :=
  let index := clampIndex s index in
  if index =? currentIndex s then s
  else
    (* stop and complete the running transition *)
    let s1 := match effectiveAnimator s with
              | Some _ => tellAnimator Stop s
              | None => s
              end in
    let s2 :=
      if animated s1 then
        (* the geometry of a hidden item is not kept up to date *)
        let s' := adjustItemAt index s1 in
        (* start the animation *)
        let s' := tellAnimator (SetStartIndex (currentIndex s')) s' in
        let s' := tellAnimator (SetEndIndex index) s' in
        let s' := tellAnimator (SetWindow (window s')) s' in
        tellAnimator Start s'
      else
        (* item1 = itemAtIndex( currentIndex ), item2 = itemAtIndex( index ) *)
        setVisibleAt index true (setVisibleAt (currentIndex s1) false s1) in
    emitCurrentIndexChanged index (withCurrentIndex index s2).

(** [QskStackBox::setCurrentItem] *)
Definition setCurrentItem (p : option nat) (s : QskStackBox) : QskStackBox :=
  setCurrentIndex (indexOf s p) s.

(** Modelled from the spec: [engine.transpose()] (the grid engine is not
    part of the sources), "a round-trip no-op for layout purposes" that
    only makes the engine rebuild its cell table: it keeps the ordered item
    list. *)
Definition transpose (e : list QskLayoutItem) : list QskLayoutItem := e.

(** [QskStackBox::layoutItemRemoved], called once the engine has dropped
    the entry, so [itemCount] is the count after the removal.  The cell
    table [engine.itemAt( 0, 0 )] is internal to the engine; the repair by
    two transpositions is applied to the item list, which it keeps. *)
Definition layoutItemRemoved (index : Z) (s : QskStackBox) : QskStackBox :=
  let s1 :=
    if index =? currentIndex s then
      let newIndex := currentIndex s in
      let newIndex := if newIndex =? itemCount s then newIndex - 1 else newIndex in
      let s' := withCurrentIndex (-1) s in
      if newIndex >=? 0 then setCurrentIndex index s' else s'
    else if index <? currentIndex s then
      withCurrentIndex (currentIndex s - 1) s
    else s in
  if 0 <? itemCount s1
  then withEngine (transpose (transpose (engine s1))) s1
  else s1.

(** [QskStackBox::layoutItemInserted], called once the engine holds the
    entry at position [layoutItem]; [index] is the position that was asked
    for, which the hook does not look at. *)
Definition layoutItemInserted (layoutItem : nat) (index : Z) (s : QskStackBox) : QskStackBox :=
  match engine s !! layoutItem ≫= item with
  | None => s
  | Some _ =>
      let s1 := withEngine (alter (setRetainSizeWhenHidden true) layoutItem (engine s)) s in
      if itemCount s1 =? 1 then
        let s2 := withCurrentIndex 0 s1 in
        let s3 := withEngine (alter (setItemVisible true) layoutItem (engine s2)) s2 in
        emitCurrentIndexChanged (currentIndex s3) s3
      else
        withEngine (alter (setItemVisible false) layoutItem (engine s1)) s1
  end.

(** Modelled from the spec: the insertion and removal entry points of the
    indexed layout box (QskIndexedLayoutBox.cpp and QskLayoutBox.cpp are
    not part of the sources).  The child list is ordered and
    index-addressed; the engine performs the structural change and then
    invokes the hook.  A position outside the list appends. *)
Definition insertPosition (s : QskStackBox) (index : Z) : nat :=
  if (index <? 0) || (index >=? itemCount s) then length (engine s)
  else Z.to_nat index.

Definition insertAt {A : Type} (pos : nat) (x : A) (l : list A) : list A :=
  take pos l ++ x :: drop pos l.

Definition insertLayoutItem (li : QskLayoutItem) (index : Z) (s : QskStackBox) : QskStackBox :=
  let pos := insertPosition s index in
  layoutItemInserted pos index (withEngine (insertAt pos li (engine s)) s).

Definition addItem (li : QskLayoutItem) (s : QskStackBox) : QskStackBox :=
  insertLayoutItem li (-1) s.

Definition removeAt (index : Z) (s : QskStackBox) : QskStackBox :=
  match layoutItemAt s index with
  | None => s
  | Some _ => layoutItemRemoved index (withEngine (delete (Z.to_nat index) (engine s)) s)
  end.

(** ** Size negotiation *)

(** [a > b] and [a >= b] on [qreal]. *)
Definition Qgtb (a b : Q) : bool := negb (Qle_bool a b).
Definition Qgeb (a b : Q) : bool := Qle_bool b a.

(** [for ( int i = 0; i < n; i++ ) body( i )], threading the locals. *)
Definition forIndex {A : Type} (n : Z) (body : Z -> A -> A) (a : A) : A :=
  fold_left (fun acc i => body (Z.of_nat i) acc) (seq 0 (Z.to_nat n)) a.

(** [qskConstrainedValue] *)
Definition qskConstrainedValue (type : ConstraintType) (control : QskStackBox)
    (widthOrHeight : Q) : Q :=
  let constrainFunction :=
    match type with
    | WidthForHeight => itemWidthForHeight
    | _ => itemHeightForWidth
    end in
  forIndex (itemCount control)
    (fun i constrainedValue =>
       match itemAtIndex control i with
       | Some it =>
           let v := constrainFunction it widthOrHeight in
           if Qgtb v constrainedValue then v else constrainedValue
       | None => constrainedValue
       end)
    (-1)%Q.

(** Modelled from the spec: [QskLayoutConstraint::constrainedMetric]
    (QskLayoutConstraint.cpp is not part of the sources).  The spec gives
    the scalar metric of the box as the value computed over all children
    for the given cross-axis value, that is the value of the function it
    is handed. *)
Definition constrainedMetric (type : ConstraintType) (control : QskStackBox)
    (widthOrHeight : Q) (constrainFunction : ConstraintType -> QskStackBox -> Q -> Q) : Q :=
  constrainFunction type control widthOrHeight.

(** [QskStackBox::heightForWidth] *)
Definition heightForWidth (s : QskStackBox) (w : Q) : Q :=
  constrainedMetric HeightForWidth s w qskConstrainedValue.

(** [QskStackBox::widthForHeight] *)
Definition widthForHeight (s : QskStackBox) (h : Q) : Q :=
  constrainedMetric WidthForHeight s h qskConstrainedValue.

Definition setWidth (x : Q) (c : QSizeF) : QSizeF := mkSize x (height c).
Definition setHeight (x : Q) (c : QSizeF) : QSizeF := mkSize (width c) x.

Definition isOrientation (o o' : Orientation) : bool :=
  orientationFlag o =? orientationFlag o'.

(** A [sizeHint] call of the second pass: the layout item asked and the
    constraint it was given. *)
Definition Query : Type := QskLayoutItem * QSizeF.

(** What one run of [layoutItemsSizeHint] went through: the size after the
    first loop, the [sizeHint] calls of the two later loops in the order
    they were made, and the size returned. *)
Record SizeHintRun : Type := mkRun {
  firstPass : QSizeF;
  horizontalQueries : list Query;
  verticalQueries : list Query;
  returned : QSizeF
}.

(** The body of the first loop, on the locals [width], [height] and
    [constraintOrientation]; [layoutItem] is [engine.layoutItemAt( i )]. *)
Definition firstLoop (constraint : QSizeF) (layoutItem : option QskLayoutItem)
    (acc : Q * Q * Z) : Q * Q * Z :=
  let '(w, h, constraintOrientation) := acc in
  match layoutItem with
  | Some layoutItem =>
      if hasDynamicConstraint layoutItem then
        (w, h, Z.lor constraintOrientation
                 (orientationFlag (dynamicConstraintOrientation layoutItem)))
      else
        let hint := sizeHint layoutItem PreferredSize constraint in
        let w := if Qgeb (width hint) w then width hint else w in
        let h := if Qgeb (height hint) h then height hint else h in
        (w, h, constraintOrientation)
  | None => acc
  end.

(** [layoutItem->hasDynamicConstraint() &&
     layoutItem->dynamicConstraintOrientation() == o] *)
Definition constrainedAlong (o : Orientation) (layoutItem : QskLayoutItem) : bool :=
  hasDynamicConstraint layoutItem
  && isOrientation (dynamicConstraintOrientation layoutItem) o.

(** The body of the loop under [constraintOrientation & Qt::Horizontal],
    on the local [width]. *)
Definition horizontalLoop (constraint : QSizeF) (layoutItem : option QskLayoutItem)
    (acc : Q * list Query) : Q * list Query :=
  let '(w, asked) := acc in
  match layoutItem with
  | Some layoutItem =>
      if constrainedAlong Horizontal layoutItem then
        let hint := sizeHint layoutItem PreferredSize constraint in
        (if Qgtb (width hint) w then width hint else w,
         asked ++ [(layoutItem, constraint)])
      else acc
  | None => acc
  end.

(** The body of the loop under [constraintOrientation & Qt::Vertical], on
    the local [height]. *)
Definition verticalLoop (constraint : QSizeF) (layoutItem : option QskLayoutItem)
    (acc : Q * list Query) : Q * list Query :=
  let '(h, asked) := acc in
  match layoutItem with
  | Some layoutItem =>
      if constrainedAlong Vertical layoutItem then
        let hint := sizeHint layoutItem PreferredSize constraint in
        (if Qgtb (height hint) h then height hint else h,
         asked ++ [(layoutItem, constraint)])
      else acc
  | None => acc
  end.

(** [QskStackBox::layoutItemsSizeHint], with its [sizeHint] calls. *)
Definition layoutItemsSizeHintRun (s : QskStackBox) : SizeHintRun :=
  let constraint := mkSize (-1) (-1) in
  let '(w, h, constraintOrientation) :=
    forIndex (itemCount s)
      (fun i => firstLoop constraint (layoutItemAt s i)) ((-1)%Q, (-1)%Q, 0) in
  let first := mkSize w h in
  let '(constraint, (w, askedH)) :=
    if negb (Z.land constraintOrientation (orientationFlag Horizontal) =? 0) then
      let constraint := setHeight h (setWidth (-1) constraint) in
      (constraint,
       forIndex (itemCount s)
         (fun i => horizontalLoop constraint (layoutItemAt s i)) (w, []))
    else (constraint, (w, [])) in
  let '(constraint, (h, askedV)) :=
    if negb (Z.land constraintOrientation (orientationFlag Vertical) =? 0) then
      let constraint := setHeight (-1) (setWidth w constraint) in
      (constraint,
       forIndex (itemCount s)
         (fun i => verticalLoop constraint (layoutItemAt s i)) (h, []))
    else (constraint, (h, [])) in
  mkRun first askedH askedV (mkSize w h).

Definition layoutItemsSizeHint (s : QskStackBox) : QSizeF :=
  returned (layoutItemsSizeHintRun s).

(** ** Sequences of operations *)

(** The operations a caller, or the engine on its behalf, can run on a
    box. *)
Inductive Operation : Type :=
  | OpSetCurrentIndex (index : Z)
  | OpSetCurrentItem (p : option nat)
  | OpInsert (li : QskLayoutItem) (index : Z)
  | OpRemove (index : Z)
  | OpSetAnimator (a : option QskStackBoxAnimator)
  | OpScene (w : option nat) (v p : bool).

Definition perform (op : Operation) (s : QskStackBox) : QskStackBox :=
  match op with
  | OpSetCurrentIndex index => setCurrentIndex index s
  | OpSetCurrentItem p => setCurrentItem p s
  | OpInsert li index => insertLayoutItem li index s
  | OpRemove index => removeAt index s
  | OpSetAnimator a => setAnimator a s
  | OpScene w v p => withScene w v p s
  end.

Definition performAll (ops : list Operation) (s : QskStackBox) : QskStackBox :=
  fold_left (fun s op => perform op s) ops s.

(** The states a box can be in: built by the constructor and then driven
    by any sequence of operations and scene changes. *)
Inductive reachable : QskStackBox -> Prop :=
  | reachable_new w v p : reachable (newStackBox w v p)
  | reachable_perform op s : reachable s -> reachable (perform op s).

(** [currentIndex] is [-1] or designates a child. *)
Definition indexInRange (s : QskStackBox) : Prop :=
  -1 <= currentIndex s < itemCount s.

(** A visible child sits at [currentIndex]; with [currentIndex = -1] no
    child is visible, since no child sits at [-1]. *)
Definition oneVisible (s : QskStackBox) : Prop :=
  forall (i : Z) (it : QQuickItem),
    itemAtIndex s i = Some it -> visible it = true -> i = currentIndex s.

(** The visibility flags of the children, in order. *)
Definition visibilities (s : QskStackBox) : list (option bool) :=
  map (fun li => visible <$> item li) (engine s).

(** No animator is attached: every switch takes the synchronous branch. *)
Definition synchronous (op : Operation) : Prop :=
  match op with
  | OpSetAnimator a => a = None
  | _ => True
  end.

(** An insertion lands behind the current child. *)
Definition behindCurrent (s : QskStackBox) (op : Operation) : Prop :=
  match op with
  | OpInsert _ index => currentIndex s < Z.of_nat (insertPosition s index)
  | _ => True
  end.

(** ** Vocabulary of the statements *)

(** The entry as the hook leaves it: size retained when hidden, shown if
    it is the only one and hidden otherwise; an entry without an item is
    left alone. *)
Definition entered (first : bool) (li : QskLayoutItem) : QskLayoutItem :=
  match item li with
  | Some _ => setItemVisible first (setRetainSizeWhenHidden true li)
  | None => li
  end.

(** A sequence of operations that never attaches an animator and whose
    insertions all land behind the current child. *)
Fixpoint tame (s : QskStackBox) (ops : list Operation) : Prop :=
  match ops with
  | [] => True
  | op :: ops' => synchronous op /\ behindCurrent s op /\ tame (perform op s) ops'
  end.

(** The child that was current before an operation is hidden after it. *)
Definition previousHidden (s s' : QskStackBox) : Prop :=
  forall it, currentItem s = Some it ->
    visible <$> itemAtIndex s' (currentIndex s) = Some false.

(** [r] is the greatest of [vals]. *)
Definition isMax (r : Q) (vals : list Q) : Prop :=
  r ∈ vals /\ forall v, v ∈ vals -> (v <= r)%Q.

(** [r] is the greatest of [-1] and [vals]: [-1] is the value the loops
    start from, the "no hint" of a Qt size. *)
Definition isMaxFrom (r : Q) (vals : list Q) : Prop :=
  (r = (-1)%Q \/ r ∈ vals) /\ (-1 <= r)%Q /\ forall v, v ∈ vals -> (v <= r)%Q.

(** The running maximum kept by a loop: [keep v acc] says whether [v]
    replaces [acc]; [>] and [>=] are the two instances. *)
Definition runningMax (keep : Q -> Q -> bool) (acc : Q) (vals : list Q) : Q :=
  fold_left (fun acc v => if keep v acc then v else acc) vals acc.

(** The children of the box: the items of its entries, hidden or not. *)
Definition children (s : QskStackBox) : list QQuickItem := omap item (engine s).

(** What a child answers for the metric [type]. *)
Definition childMetric (type : ConstraintType) (it : QQuickItem) (x : Q) : Q :=
  match type with
  | WidthForHeight => itemWidthForHeight it x
  | _ => itemHeightForWidth it x
  end.

Definition childMetrics (type : ConstraintType) (s : QskStackBox) (x : Q) : list Q :=
  map (fun it => childMetric type it x) (children s).

(** The preferred size an entry answers under [constraint]. *)
Definition preferred (constraint : QSizeF) (li : QskLayoutItem) : QSizeF :=
  sizeHint li PreferredSize constraint.

(** Entries without a dynamic constraint. *)
Definition unconstrained (li : QskLayoutItem) : bool :=
  negb (hasDynamicConstraint li).

(** The orientations of the constrained entries, OR-combined. *)
Definition orientations (l : list QskLayoutItem) : Z :=
  fold_right (fun li acc =>
                if hasDynamicConstraint li
                then Z.lor (orientationFlag (dynamicConstraintOrientation li)) acc
                else acc) 0 l.

(** The run of [layoutItemsSizeHint], loop by loop. *)
Definition firstWidth (l : list QskLayoutItem) : Q :=
  runningMax Qgeb (-1)
    (map (fun li => width (preferred (mkSize (-1) (-1)) li)) (List.filter unconstrained l)).

Definition firstHeight (l : list QskLayoutItem) : Q :=
  runningMax Qgeb (-1)
    (map (fun li => height (preferred (mkSize (-1) (-1)) li)) (List.filter unconstrained l)).

Definition finalWidth (l : list QskLayoutItem) : Q :=
  runningMax Qgtb (firstWidth l)
    (map (fun li => width (preferred (mkSize (-1) (firstHeight l)) li))
       (List.filter (constrainedAlong Horizontal) l)).

Definition finalHeight (l : list QskLayoutItem) : Q :=
  runningMax Qgtb (firstHeight l)
    (map (fun li => height (preferred (mkSize (finalWidth l) (-1)) li))
       (List.filter (constrainedAlong Vertical) l)).

(** The preferred widths and heights of the entries, asked without a
    constraint. *)
Definition preferredWidths (s : QskStackBox) : list Q :=
  map (fun li => width (preferred (mkSize (-1) (-1)) li)) (engine s).

Definition preferredHeights (s : QskStackBox) : list Q :=
  map (fun li => height (preferred (mkSize (-1) (-1)) li)) (engine s).

(** ** Sample boxes *)

(** A page: a child shown on creation, as a [QQuickItem] is, without size
    requirements. *)
Definition page (n : nat) : QskLayoutItem :=
  mkLayoutItem (Some (mkItem n true (fun _ => -1)%Q (fun _ => -1)%Q))
    false false Horizontal (fun _ _ => mkSize (-1) (-1)).

(** A box that is not on screen and has no animator. *)
Definition offscreen : QskStackBox := newStackBox None false false.

(** A box with one page and an idle animator, put on screen and
    painted. *)
Definition onscreen : QskStackBox :=
  performAll [OpSetAnimator (Some (mkAnimator 1 [])); OpInsert (page 1) (-1);
              OpScene (Some 0%nat) true true]
    offscreen.

(** Two pages, the first one current. *)
Definition twoPages : QskStackBox :=
  performAll [OpInsert (page 1) (-1); OpInsert (page 2) (-1)] offscreen.

(** Three pages, the last one current. *)
Definition threePages : QskStackBox :=
  performAll [OpInsert (page 1) (-1); OpInsert (page 2) (-1);
              OpInsert (page 3) (-1); OpSetCurrentIndex 2] offscreen.

(** One page, hidden by [setCurrentIndex( -1 )]. *)
Definition allHidden : QskStackBox :=
  performAll [OpInsert (page 1) (-1); OpSetCurrentIndex (-1)] offscreen.

(** An entry of a given preferred size, without a dynamic constraint. *)
Definition sized (n : nat) (w h : Q) : QskLayoutItem :=
  mkLayoutItem (Some (mkItem n true (fun _ => -1)%Q (fun _ => -1)%Q))
    false false Horizontal (fun _ _ => mkSize w h).

(** Three entries: a child that prefers 10 x 10, a child whose width
    depends on its height and that prefers 50 across, and a child whose
    height depends on its width and that grows as high as it is wide. *)
Definition mixed : QskStackBox :=
  performAll
    [OpInsert (sized 1 10 10) (-1);
     OpInsert (mkLayoutItem (Some (mkItem 2 true (fun _ => -1)%Q (fun _ => -1)%Q))
                 false true Horizontal (fun _ c => mkSize 50 (height c))) (-1);
     OpInsert (mkLayoutItem (Some (mkItem 3 true (fun _ => -1)%Q (fun _ => -1)%Q))
                 false true Vertical (fun _ c => mkSize (width c) (width c))) (-1)]
    offscreen.

(** ** Vocabulary of the further properties *)

(** The current child, when there is one, is visible. *)
Definition currentShown (s : QskStackBox) : Prop :=
  forall it, currentItem s = Some it -> visible it = true.

(** Every entry of the box holds an item. *)
Definition allItems (s : QskStackBox) : Prop :=
  forall li, li ∈ engine s -> is_Some (item li).

(** The identities of the children, in order. *)
Definition idents (s : QskStackBox) : list (option nat) :=
  map (fun li => ident <$> item li) (engine s).

(** The calls [setCurrentIndex( index )] makes on the animator of [s]. *)
Definition switchCalls (s : QskStackBox) (index : Z) : list AnimatorCall :=
  if clampIndex s index =? currentIndex s then []
  else if animated s then
    [Stop; SetStartIndex (currentIndex s); SetEndIndex (clampIndex s index);
     SetWindow (window s); Start]
  else [Stop].

(** An animator after it received [cs]. *)
Definition receivedAll (cs : list AnimatorCall) (a : QskStackBoxAnimator) : QskStackBoxAnimator :=
  mkAnimator (animatorId a) (calls a ++ cs).

(** Some entry of the box holds the item [p]. *)
Definition isChild (p : nat) (s : QskStackBox) : Prop :=
  exists li, li ∈ engine s /\ holds p li = true.

(** Every entry that holds an item keeps its size when hidden. *)
Definition allRetained (s : QskStackBox) : Prop :=
  forall li, li ∈ engine s -> is_Some (item li) -> retainSizeWhenHidden li = true.

(** The operations that leave the list of children alone. *)
Definition keepsChildren (op : Operation) : bool :=
  match op with
  | OpInsert _ _ | OpRemove _ => false
  | _ => true
  end.

(** Reading a call log: no [start()] reaches an animator that is running,
    that is, that was started and not stopped since.  [running] is the
    state the log starts in. *)
Fixpoint startsWhenIdle (running : bool) (cs : list AnimatorCall) : bool :=
  match cs with
  | [] => true
  | Start :: cs' => negb running && startsWhenIdle true cs'
  | Stop :: cs' => startsWhenIdle false cs'
  | _ :: cs' => startsWhenIdle running cs'
  end.

(** The attached animator, if any, was never started while running. *)
Definition animatorSound (s : QskStackBox) : Prop :=
  match animator s with
  | Some a => startsWhenIdle false (calls a) = true
  | None => True
  end.

(** The animator an operation attaches, if any, was never started while
    running. *)
Definition attachesSound (op : Operation) : Prop :=
  match op with
  | OpSetAnimator (Some a) => startsWhenIdle false (calls a) = true
  | _ => True
  end.

(** * Properties *)

(** ** Basic facts *)

Lemma eta_StackBox (s : QskStackBox) : withEngine (engine s) s = s.
Proof. by destruct s. Qed.

Lemma layoutItemAt_nat (s : QskStackBox) (i : nat) :
  layoutItemAt s (Z.of_nat i) = engine s !! i.
Proof.
  unfold layoutItemAt.
  destruct (Z.ltb_spec (Z.of_nat i) 0) as [H|H]; [lia|].
  by rewrite Nat2Z.id.
Qed.

Lemma layoutItemAt_Some (s : QskStackBox) (i : Z) (li : QskLayoutItem) :
  layoutItemAt s i = Some li -> 0 <= i < itemCount s.
Proof.
  unfold layoutItemAt, itemCount.
  destruct (Z.ltb_spec i 0) as [H|H]; [done|].
  intros Hl. apply lookup_lt_Some in Hl. lia.
Qed.

Lemma itemAtIndex_Some (s : QskStackBox) (i : Z) (it : QQuickItem) :
  itemAtIndex s i = Some it -> 0 <= i < itemCount s.
Proof.
  unfold itemAtIndex. destruct (layoutItemAt s i) as [li|] eqn:E; [|done].
  intros _. by apply layoutItemAt_Some in E.
Qed.

Lemma clampIndex_range (s : QskStackBox) (index : Z) :
  -1 <= clampIndex s index < itemCount s.
Proof.
  unfold clampIndex, itemCount.
  destruct (Z.ltb_spec index 0), (Z.geb_spec index (Z.of_nat (length (engine s))));
    simpl; lia.
Qed.

Lemma clampIndex_out (s : QskStackBox) (index : Z) :
  index < 0 \/ index >= itemCount s -> clampIndex s index = -1.
Proof.
  unfold clampIndex.
  destruct (Z.ltb_spec index 0), (Z.geb_spec index (itemCount s)); simpl; lia.
Qed.

Lemma clampIndex_in (s : QskStackBox) (index : Z) :
  0 <= index < itemCount s -> clampIndex s index = index.
Proof.
  unfold clampIndex.
  destruct (Z.ltb_spec index 0), (Z.geb_spec index (itemCount s)); simpl; lia.
Qed.

Lemma clampIndex_current (s : QskStackBox) :
  indexInRange s -> clampIndex s (currentIndex s) = currentIndex s.
Proof.
  intros [Hlo Hhi]. destruct (Z.eq_dec (currentIndex s) (-1)) as [E|E].
  - rewrite E. by apply clampIndex_out; left.
  - apply clampIndex_in. lia.
Qed.

Lemma itemCount_setVisibleAt (i : Z) (b : bool) (s : QskStackBox) :
  itemCount (setVisibleAt i b s) = itemCount s.
Proof.
  unfold setVisibleAt, itemCount. destruct (i <? 0); [done|].
  simpl. by rewrite length_alter.
Qed.

(** What [setCurrentIndex] commits. *)
Lemma currentIndex_setCurrentIndex (index : Z) (s : QskStackBox) :
  currentIndex (setCurrentIndex index s) = clampIndex s index.
Proof.
  unfold setCurrentIndex.
  destruct (Z.eqb_spec (clampIndex s index) (currentIndex s)) as [E|E]; [done|].
  reflexivity.
Qed.

Lemma animated_tellAnimator (c : AnimatorCall) (s : QskStackBox) :
  animated (tellAnimator c s) = animated s.
Proof. by destruct s as [e i [a|] [w|] v p adj sig]. Qed.

(** The children after [setCurrentIndex]: untouched when nothing is to be
    done or when the animator takes over, switched otherwise. *)
Lemma engine_setCurrentIndex (index : Z) (s : QskStackBox) :
  engine (setCurrentIndex index s) =
    if (clampIndex s index =? currentIndex s) || animated s then engine s
    else engine (setVisibleAt (clampIndex s index) true
                   (setVisibleAt (currentIndex s) false s)).
Proof.
  unfold setCurrentIndex.
  destruct (clampIndex s index =? currentIndex s); [done|].
  destruct s as [e i [a|] [w|] [|] [|] adj sig]; cbn; try reflexivity;
    unfold setVisibleAt; cbn;
    destruct (clampIndex _ index <? 0), (i <? 0); reflexivity.
Qed.

(** The signals after [setCurrentIndex]: one more, carrying the new index,
    exactly when the index changes. *)
Lemma signals_setCurrentIndex (index : Z) (s : QskStackBox) :
  currentIndexChanged (setCurrentIndex index s) =
    if clampIndex s index =? currentIndex s then currentIndexChanged s
    else currentIndexChanged s ++ [clampIndex s index].
Proof.
  unfold setCurrentIndex.
  destruct (clampIndex s index =? currentIndex s); [done|].
  destruct s as [e i [a|] [w|] [|] [|] adj sig]; cbn; try reflexivity;
    unfold setVisibleAt; cbn;
    destruct (clampIndex _ index <? 0), (i <? 0); reflexivity.
Qed.

Lemma itemCount_setCurrentIndex (index : Z) (s : QskStackBox) :
  itemCount (setCurrentIndex index s) = itemCount s.
Proof.
  unfold itemCount at 1. rewrite engine_setCurrentIndex.
  destruct (_ || _); [done|].
  fold (itemCount (setVisibleAt (clampIndex s index) true
          (setVisibleAt (currentIndex s) false s))).
  by rewrite !itemCount_setVisibleAt.
Qed.

(** *** Insertion *)

Section InsertAt.
Context {A : Type}.
Implicit Types (l : list A) (x : A) (pos i : nat).

Lemma length_insertAt pos x l : length (insertAt pos x l) = S (length l).
Proof.
  unfold insertAt. rewrite length_app. simpl.
  rewrite length_take, length_drop. lia.
Qed.

Lemma lookup_insertAt_eq pos x l :
  (pos <= length l)%nat -> insertAt pos x l !! pos = Some x.
Proof.
  intros H. unfold insertAt. apply list_lookup_middle.
  rewrite length_take. lia.
Qed.

Lemma lookup_insertAt_lt pos x l i :
  (i < pos)%nat -> (pos <= length l)%nat -> insertAt pos x l !! i = l !! i.
Proof.
  intros H1 H2. unfold insertAt.
  rewrite lookup_app_l by (rewrite length_take; lia).
  by apply lookup_take_lt.
Qed.

Lemma lookup_insertAt_gt pos x l i :
  (pos <= i)%nat -> (pos <= length l)%nat -> insertAt pos x l !! S i = l !! i.
Proof.
  intros H1 H2. unfold insertAt.
  rewrite lookup_app_r by (rewrite length_take; lia).
  rewrite length_take.
  replace (S i - pos `min` length l)%nat with (S (i - pos)) by lia.
  simpl. rewrite lookup_drop. f_equal. lia.
Qed.

Lemma alter_insertAt (f : A -> A) pos x l :
  (pos <= length l)%nat ->
  alter f pos (insertAt pos x l) = insertAt pos (f x) l.
Proof.
  intros H. unfold insertAt.
  rewrite alter_app_r_alt by (rewrite length_take; lia).
  rewrite length_take.
  replace (pos - pos `min` length l)%nat with 0%nat by lia.
  reflexivity.
Qed.
End InsertAt.

Lemma insertPosition_le (s : QskStackBox) (index : Z) :
  (insertPosition s index <= length (engine s))%nat.
Proof.
  unfold insertPosition, itemCount.
  destruct (Z.ltb_spec index 0), (Z.geb_spec index (Z.of_nat (length (engine s))));
    simpl; lia.
Qed.

Lemma first_entry (n : nat) : (Z.of_nat (S n) =? 1) = (Z.of_nat n =? 0).
Proof.
  destruct (Z.eqb_spec (Z.of_nat (S n)) 1), (Z.eqb_spec (Z.of_nat n) 0); lia.
Qed.

Lemma engine_insertLayoutItem (li : QskLayoutItem) (index : Z) (s : QskStackBox) :
  engine (insertLayoutItem li index s) =
    insertAt (insertPosition s index) (entered (itemCount s =? 0) li) (engine s).
Proof.
  unfold insertLayoutItem, layoutItemInserted, entered. cbn [engine withEngine].
  pose proof (insertPosition_le s index) as Hpos.
  rewrite lookup_insertAt_eq by done. cbn [mbind option_bind].
  destruct (item li) as [it|]; [|done].
  unfold itemCount at 1. cbn [engine withEngine].
  rewrite length_alter, length_insertAt.
  rewrite first_entry. fold (itemCount s).
  destruct (itemCount s =? 0); cbn [engine withEngine withCurrentIndex
    emitCurrentIndexChanged];
    rewrite list_alter_alter_eq, alter_insertAt by done; reflexivity.
Qed.

Lemma currentIndex_insertLayoutItem (li : QskLayoutItem) (index : Z) (s : QskStackBox) :
  currentIndex (insertLayoutItem li index s) =
    match item li with
    | Some _ => if itemCount s =? 0 then 0 else currentIndex s
    | None => currentIndex s
    end.
Proof.
  unfold insertLayoutItem, layoutItemInserted. cbn [engine withEngine].
  pose proof (insertPosition_le s index) as Hpos.
  rewrite lookup_insertAt_eq by done. cbn [mbind option_bind].
  destruct (item li) as [it|]; [|done].
  unfold itemCount at 1. cbn [engine withEngine].
  rewrite length_alter, length_insertAt.
  rewrite first_entry. fold (itemCount s).
  by destruct (itemCount s =? 0).
Qed.

Lemma signals_insertLayoutItem (li : QskLayoutItem) (index : Z) (s : QskStackBox) :
  currentIndexChanged (insertLayoutItem li index s) =
    match item li with
    | Some _ => if itemCount s =? 0 then currentIndexChanged s ++ [0]
                else currentIndexChanged s
    | None => currentIndexChanged s
    end.
Proof.
  unfold insertLayoutItem, layoutItemInserted. cbn [engine withEngine].
  pose proof (insertPosition_le s index) as Hpos.
  rewrite lookup_insertAt_eq by done. cbn [mbind option_bind].
  destruct (item li) as [it|]; [|done].
  unfold itemCount at 1. cbn [engine withEngine].
  rewrite length_alter, length_insertAt.
  rewrite first_entry. fold (itemCount s).
  by destruct (itemCount s =? 0).
Qed.

Lemma itemCount_insertLayoutItem (li : QskLayoutItem) (index : Z) (s : QskStackBox) :
  itemCount (insertLayoutItem li index s) = itemCount s + 1.
Proof.
  unfold itemCount at 1. rewrite engine_insertLayoutItem, length_insertAt.
  unfold itemCount. lia.
Qed.

(** *** Removal *)

(** The two transpositions give back the state they started from, so the
    hook is its index bookkeeping. *)
Lemma layoutItemRemoved_bookkeeping (index : Z) (s : QskStackBox) :
  layoutItemRemoved index s =
    if index =? currentIndex s then
      if (if currentIndex s =? itemCount s then currentIndex s - 1 else currentIndex s) >=? 0
      then setCurrentIndex index (withCurrentIndex (-1) s)
      else withCurrentIndex (-1) s
    else if index <? currentIndex s then withCurrentIndex (currentIndex s - 1) s
    else s.
Proof.
  unfold layoutItemRemoved, transpose.
  match goal with |- (if 0 <? itemCount ?x then _ else _) = _ =>
    rewrite (eta_StackBox x); by destruct (0 <? itemCount x) end.
Qed.

(** The removed index is the current one: the index ends at [index] when
    a child sits there after the removal, and at [-1] otherwise. *)
Lemma currentIndex_layoutItemRemoved_current (s : QskStackBox) :
  0 <= currentIndex s <= itemCount s ->
  currentIndex (layoutItemRemoved (currentIndex s) s) =
    if currentIndex s <? itemCount s then currentIndex s else -1.
Proof.
  intros Hr. rewrite layoutItemRemoved_bookkeeping, Z.eqb_refl.
  destruct (Z.ltb_spec (currentIndex s) (itemCount s)) as [Hlt|Hge].
  - destruct (Z.eqb_spec (currentIndex s) (itemCount s)) as [E|E]; [lia|].
    destruct (Z.geb_spec (currentIndex s) 0) as [G|G]; [|lia].
    rewrite currentIndex_setCurrentIndex. apply clampIndex_in.
    unfold itemCount in *. simpl. lia.
  - destruct (Z.eqb_spec (currentIndex s) (itemCount s)) as [E|E]; [|lia].
    destruct (Z.geb_spec (currentIndex s - 1) 0) as [G|G]; [|done].
    rewrite currentIndex_setCurrentIndex. apply clampIndex_out.
    right. unfold itemCount in *. simpl. lia.
Qed.

Lemma itemCount_layoutItemRemoved (index : Z) (s : QskStackBox) :
  itemCount (layoutItemRemoved index s) = itemCount s.
Proof.
  rewrite layoutItemRemoved_bookkeeping.
  repeat match goal with |- context [if ?c then _ else _] => destruct c end;
    rewrite ?itemCount_setCurrentIndex; reflexivity.
Qed.

Lemma indexInRange_layoutItemRemoved (index : Z) (s : QskStackBox) :
  0 <= index -> -1 <= currentIndex s <= itemCount s ->
  (index = currentIndex s \/ currentIndex s < itemCount s \/ index < currentIndex s) ->
  indexInRange (layoutItemRemoved index s).
Proof.
  intros H0 Hr Hc. unfold indexInRange. rewrite itemCount_layoutItemRemoved.
  destruct (Z.eq_dec index (currentIndex s)) as [E|E].
  - subst index. rewrite currentIndex_layoutItemRemoved_current by lia.
    destruct (Z.ltb_spec (currentIndex s) (itemCount s)); lia.
  - rewrite layoutItemRemoved_bookkeeping.
    destruct (Z.eqb_spec index (currentIndex s)); [done|].
    destruct (Z.ltb_spec index (currentIndex s)); simpl; lia.
Qed.

Lemma removeAt_outside (index : Z) (s : QskStackBox) :
  index < 0 \/ itemCount s <= index -> removeAt index s = s.
Proof.
  intros H. unfold removeAt.
  destruct (layoutItemAt s index) as [li|] eqn:E; [|done].
  apply layoutItemAt_Some in E. lia.
Qed.

Lemma removeAt_inside (index : Z) (s : QskStackBox) :
  0 <= index < itemCount s ->
  removeAt index s =
    layoutItemRemoved index (withEngine (delete (Z.to_nat index) (engine s)) s).
Proof.
  intros H. unfold removeAt, layoutItemAt.
  destruct (Z.ltb_spec index 0); [lia|].
  destruct (engine s !! Z.to_nat index) eqn:E; [done|].
  apply lookup_ge_None in E. unfold itemCount in H. lia.
Qed.

(** *** The index stays in range *)

Lemma indexInRange_perform (op : Operation) (s : QskStackBox) :
  indexInRange s -> indexInRange (perform op s).
Proof.
  intros Hr. destruct op as [index|p|li index|index|a|w v p]; cbn [perform].
  - unfold indexInRange.
    rewrite currentIndex_setCurrentIndex, itemCount_setCurrentIndex.
    apply clampIndex_range.
  - unfold setCurrentItem, indexInRange.
    rewrite currentIndex_setCurrentIndex, itemCount_setCurrentIndex.
    apply clampIndex_range.
  - unfold indexInRange in *.
    rewrite currentIndex_insertLayoutItem, itemCount_insertLayoutItem.
    destruct (item li); [|lia].
    destruct (Z.eqb_spec (itemCount s) 0); lia.
  - destruct (Z_lt_dec index 0) as [Hn|Hn];
      [by rewrite removeAt_outside by (by left)|].
    destruct (Z_le_dec (itemCount s) index) as [Hx|Hx];
      [by rewrite removeAt_outside by (by right)|].
    rewrite removeAt_inside by lia.
    assert (Hd : itemCount (withEngine (delete (Z.to_nat index) (engine s)) s)
                 = itemCount s - 1).
    { unfold itemCount. cbn [engine withEngine].
      rewrite length_delete; [unfold itemCount in *; lia|].
      apply lookup_lt_is_Some. unfold itemCount in *. lia. }
    unfold indexInRange in Hr.
    apply indexInRange_layoutItemRemoved; [lia| |]; rewrite Hd;
      cbn [currentIndex withEngine]; lia.
  - unfold setAnimator. by destruct (sameAnimator (animator s) a).
  - done.
Qed.

Lemma reachable_indexInRange (s : QskStackBox) : reachable s -> indexInRange s.
Proof.
  induction 1 as [w v p|op s _ IH].
  - unfold indexInRange, itemCount. simpl. lia.
  - by apply indexInRange_perform.
Qed.

(** *** Visibility *)

Lemma itemAtIndex_engine (s s' : QskStackBox) (i : Z) :
  engine s = engine s' -> itemAtIndex s i = itemAtIndex s' i.
Proof. intros E. unfold itemAtIndex, layoutItemAt. by rewrite E. Qed.

Lemma itemAtIndex_withEngine (s : QskStackBox) (e : list QskLayoutItem)
    (s0 : QskStackBox) (i : Z) :
  engine s = e -> itemAtIndex s i = itemAtIndex (withEngine e s0) i.
Proof. intros E. by apply itemAtIndex_engine. Qed.

Lemma itemAtIndex_nat (s : QskStackBox) (i : nat) :
  itemAtIndex s (Z.of_nat i) = engine s !! i ≫= item.
Proof. unfold itemAtIndex. by rewrite layoutItemAt_nat. Qed.

Lemma itemAtIndex_setVisibleAt (i : Z) (b : bool) (s : QskStackBox) (j : Z) :
  itemAtIndex (setVisibleAt i b s) j =
    if decide (i = j) then setVisible b <$> itemAtIndex s j else itemAtIndex s j.
Proof.
  unfold setVisibleAt, itemAtIndex, layoutItemAt.
  destruct (Z.ltb_spec i 0) as [Hi|Hi].
  - destruct (decide (i = j)) as [->|]; [|done].
    destruct (Z.ltb_spec j 0); [done|lia].
  - destruct (Z.ltb_spec j 0) as [Hj|Hj]; [by destruct (decide (i = j))|].
    cbn [engine withEngine]. rewrite list_lookup_alter.
    destruct (decide (Z.to_nat i = Z.to_nat j)) as [E|E], (decide (i = j)) as [E'|E'];
      try lia; try done.
    rewrite E. by destruct (engine s !! Z.to_nat j).
Qed.

Lemma itemAtIndex_commit (i c : Z) (s : QskStackBox) (j : Z) :
  itemAtIndex (emitCurrentIndexChanged i (withCurrentIndex c s)) j = itemAtIndex s j.
Proof. reflexivity. Qed.

(** Without an animator the switch is the synchronous one. *)
Lemma setCurrentIndex_synchronous (index : Z) (s : QskStackBox) :
  animated s = false ->
  setCurrentIndex index s =
    if clampIndex s index =? currentIndex s then s
    else emitCurrentIndexChanged (clampIndex s index)
           (withCurrentIndex (clampIndex s index)
              (setVisibleAt (clampIndex s index) true
                 (setVisibleAt (currentIndex s)
                    false
                    (match effectiveAnimator s with
                     | Some _ => tellAnimator Stop s
                     | None => s
                     end)))).
Proof.
  intros Ha. unfold setCurrentIndex.
  destruct (clampIndex s index =? currentIndex s); [done|].
  cbv zeta.
  assert (Hs : animated (match effectiveAnimator s with
                         | Some _ => tellAnimator Stop s
                         | None => s
                         end) = false).
  { destruct (effectiveAnimator s); [by rewrite animated_tellAnimator|done]. }
  rewrite Hs. by destruct (effectiveAnimator s).
Qed.

Lemma animated_None (s : QskStackBox) : animator s = None -> animated s = false.
Proof.
  intros Ha. unfold animated, effectiveAnimator. rewrite Ha. by destruct (window s).
Qed.

(** The synchronous switch shows the child at the new index and nothing
    else, provided nothing but the old current child was visible. *)
Lemma oneVisible_setCurrentIndex (index : Z) (s : QskStackBox) :
  animator s = None -> oneVisible s -> oneVisible (setCurrentIndex index s).
Proof.
  intros Ha Hv j it Hj Hvis.
  rewrite currentIndex_setCurrentIndex.
  rewrite setCurrentIndex_synchronous in Hj by (by apply animated_None).
  unfold effectiveAnimator in Hj. rewrite Ha in Hj.
  destruct (Z.eqb_spec (clampIndex s index) (currentIndex s)) as [E|E].
  - rewrite E. by eapply Hv.
  - rewrite itemAtIndex_commit, !itemAtIndex_setVisibleAt in Hj.
    destruct (decide (clampIndex s index = j)) as [|Hne]; [done|].
    destruct (decide (currentIndex s = j)) as [Hc|Hc].
    + destruct (itemAtIndex s j); simplify_eq/=.
    + exfalso. apply Hc. symmetry. by eapply Hv.
Qed.

Lemma animator_setVisibleAt (i : Z) (b : bool) (s : QskStackBox) :
  animator (setVisibleAt i b s) = animator s.
Proof. unfold setVisibleAt. by destruct (i <? 0). Qed.

Lemma animator_setCurrentIndex (index : Z) (s : QskStackBox) :
  animator s = None -> animator (setCurrentIndex index s) = None.
Proof.
  intros Ha. rewrite setCurrentIndex_synchronous by (by apply animated_None).
  destruct (clampIndex s index =? currentIndex s); [done|].
  unfold effectiveAnimator. rewrite Ha.
  cbn [animator emitCurrentIndexChanged withCurrentIndex].
  by rewrite !animator_setVisibleAt.
Qed.

Lemma itemAtIndex_insertAt (pos : nat) (li : QskLayoutItem) (s : QskStackBox) (j : nat) :
  (pos <= length (engine s))%nat ->
  itemAtIndex (withEngine (insertAt pos li (engine s)) s) (Z.of_nat j) =
    if decide (j < pos)%nat then itemAtIndex s (Z.of_nat j)
    else if decide (j = pos) then item li
    else itemAtIndex s (Z.of_nat (j - 1)).
Proof.
  intros Hp. rewrite !itemAtIndex_nat. cbn [engine withEngine].
  destruct (decide (j < pos)%nat) as [H|H].
  - by rewrite lookup_insertAt_lt.
  - destruct (decide (j = pos)) as [->|H'].
    + by rewrite lookup_insertAt_eq.
    + destruct j as [|j]; [lia|].
      rewrite lookup_insertAt_gt by lia.
      do 2 f_equal. lia.
Qed.

Lemma itemAtIndex_delete (k : nat) (s : QskStackBox) (j : nat) :
  itemAtIndex (withEngine (delete k (engine s)) s) (Z.of_nat j) =
    if decide (j < k)%nat then itemAtIndex s (Z.of_nat j)
    else itemAtIndex s (Z.of_nat (S j)).
Proof.
  rewrite !itemAtIndex_nat. cbn [engine withEngine].
  destruct (decide (j < k)%nat) as [H|H].
  - by rewrite list_lookup_delete_lt.
  - by rewrite list_lookup_delete_ge by lia.
Qed.

Lemma oneVisible_insertLayoutItem (li : QskLayoutItem) (index : Z) (s : QskStackBox) :
  oneVisible s ->
  currentIndex s < Z.of_nat (insertPosition s index) ->
  oneVisible (insertLayoutItem li index s).
Proof.
  intros Hv Hb j it Hj Hvis.
  pose proof (insertPosition_le s index) as Hp.
  pose proof (itemAtIndex_Some _ _ _ Hj) as Hr.
  rewrite currentIndex_insertLayoutItem.
  rewrite (itemAtIndex_withEngine _ _ s _ (engine_insertLayoutItem li index s)) in Hj.
  replace j with (Z.of_nat (Z.to_nat j)) in Hj by lia.
  rewrite itemAtIndex_insertAt in Hj by done.
  assert (Hold : itemCount s <> 0 -> j = currentIndex s ->
            j = match item li with
                | Some _ => if itemCount s =? 0 then 0 else currentIndex s
                | None => currentIndex s
                end).
  { intros Hc ->. destruct (item li); [|done].
    by destruct (Z.eqb_spec (itemCount s) 0). }
  destruct (decide (Z.to_nat j < insertPosition s index)%nat) as [H1|H1];
    [|destruct (decide (Z.to_nat j = insertPosition s index)) as [H2|H2]].
  - pose proof (Hv _ _ Hj Hvis). apply Hold; unfold itemCount; lia.
  - unfold entered in Hj.
    destruct (item li) as [it'|] eqn:Eli; [|by rewrite Eli in Hj].
    cbn in Hj. rewrite Eli in Hj. cbn in Hj.
    destruct (Z.eqb_spec (itemCount s) 0) as [E0|E0].
    + unfold itemCount in E0. lia.
    + by simplify_eq/=.
  - pose proof (Hv _ _ Hj Hvis). apply Hold; unfold itemCount; lia.
Qed.

Lemma oneVisible_removeAt (index : Z) (s : QskStackBox) :
  animator s = None -> oneVisible s -> oneVisible (removeAt index s).
Proof.
  intros Ha Hv.
  destruct (Z_lt_dec index 0) as [Hn|Hn];
    [by rewrite removeAt_outside by (by left)|].
  destruct (Z_le_dec (itemCount s) index) as [Hx|Hx];
    [by rewrite removeAt_outside by (by right)|].
  rewrite removeAt_inside by lia.
  set (s' := withEngine (delete (Z.to_nat index) (engine s)) s).
  assert (Hs' : forall j it, itemAtIndex s' j = Some it -> visible it = true ->
            (j < index /\ j = currentIndex s) \/ (index <= j /\ j + 1 = currentIndex s)).
  { intros j it Hj Hvis. pose proof (itemAtIndex_Some _ _ _ Hj) as Hr.
    replace j with (Z.of_nat (Z.to_nat j)) in Hj by lia.
    unfold s' in Hj. rewrite itemAtIndex_delete in Hj.
    destruct (decide (Z.to_nat j < Z.to_nat index)%nat);
      pose proof (Hv _ _ Hj Hvis); lia. }
  rewrite layoutItemRemoved_bookkeeping.
  change (currentIndex s') with (currentIndex s).
  destruct (Z.eqb_spec index (currentIndex s)) as [E|E].
  - assert (Hnone : oneVisible (withCurrentIndex (-1) s')).
    { intros j it Hj Hvis.
      erewrite itemAtIndex_engine in Hj by reflexivity.
      destruct (Hs' j it Hj Hvis); lia. }
    match goal with |- context [if ?c then _ else _] => destruct c end; [|done].
    by apply oneVisible_setCurrentIndex.
  - destruct (Z.ltb_spec index (currentIndex s)) as [L|L].
    + intros j it Hj Hvis. cbn [currentIndex withCurrentIndex].
      erewrite itemAtIndex_engine in Hj by reflexivity.
      destruct (Hs' j it Hj Hvis); lia.
    + intros j it Hj Hvis. change (currentIndex s') with (currentIndex s).
      destruct (Hs' j it Hj Hvis); lia.
Qed.

Lemma animator_layoutItemRemoved (index : Z) (s : QskStackBox) :
  animator s = None -> animator (layoutItemRemoved index s) = None.
Proof.
  intros Ha. rewrite layoutItemRemoved_bookkeeping.
  repeat match goal with |- context [if ?c then _ else _] => destruct c end;
    try done.
  by apply animator_setCurrentIndex.
Qed.

Lemma animator_insertLayoutItem (li : QskLayoutItem) (index : Z) (s : QskStackBox) :
  animator (insertLayoutItem li index s) = animator s.
Proof.
  unfold insertLayoutItem, layoutItemInserted.
  destruct (_ ≫= item); [|done].
  by destruct (itemCount _ =? 1).
Qed.

Lemma oneVisible_perform (op : Operation) (s : QskStackBox) :
  animator s = None -> oneVisible s -> synchronous op -> behindCurrent s op ->
  oneVisible (perform op s) /\ animator (perform op s) = None.
Proof.
  intros Ha Hv Hs Hb.
  destruct op as [index|p|li index|index|a|w v p]; cbn [perform] in *.
  - split; [by apply oneVisible_setCurrentIndex|by apply animator_setCurrentIndex].
  - split; [by apply oneVisible_setCurrentIndex|by apply animator_setCurrentIndex].
  - split; [by apply oneVisible_insertLayoutItem|by rewrite animator_insertLayoutItem].
  - split; [by apply oneVisible_removeAt|].
    unfold removeAt. destruct (layoutItemAt s index); [|done].
    by apply animator_layoutItemRemoved.
  - simpl in Hs. subst a. unfold setAnimator. by rewrite Ha.
  - split; [|done]. intros j it Hj. apply Hv.
    by erewrite itemAtIndex_engine.
Qed.

(** Without insertions in front of the current child, the visible child
    is the current one after any sequence of operations. *)
Lemma oneVisible_performAll (ops : list Operation) (s : QskStackBox) :
  animator s = None -> oneVisible s -> tame s ops ->
  oneVisible (performAll ops s).
Proof.
  revert s. induction ops as [|op ops IH]; intros s Ha Hv Ht; [done|].
  destruct Ht as (Hs & Hb & Ht).
  destruct (oneVisible_perform op s Ha Hv Hs Hb) as [Hv' Ha'].
  by apply IH.
Qed.

Lemma oneVisible_new (w : option nat) (v p : bool) : oneVisible (newStackBox w v p).
Proof. intros j it Hj. apply itemAtIndex_Some in Hj. unfold itemCount in Hj. simpl in Hj. lia. Qed.

Lemma reachable_performAll (ops : list Operation) (s : QskStackBox) :
  reachable s -> reachable (performAll ops s).
Proof.
  revert s. induction ops as [|op ops IH]; intros s Hs; [done|].
  apply IH. by constructor.
Qed.

(** Outside of removals, a change of [currentIndex] comes with exactly one
    signal, which carries the new index. *)
Lemma change_signalled (op : Operation) (s : QskStackBox) :
  (forall index, op <> OpRemove index) ->
  currentIndex (perform op s) <> currentIndex s ->
  currentIndexChanged (perform op s) =
    currentIndexChanged s ++ [currentIndex (perform op s)].
Proof.
  intros Hop Hch.
  destruct op as [index|p|li index|index|a|w v p]; cbn [perform] in *.
  - rewrite currentIndex_setCurrentIndex in *. rewrite signals_setCurrentIndex.
    by destruct (Z.eqb_spec (clampIndex s index) (currentIndex s)).
  - unfold setCurrentItem in *.
    rewrite currentIndex_setCurrentIndex in *. rewrite signals_setCurrentIndex.
    by destruct (Z.eqb_spec (clampIndex s (indexOf s p)) (currentIndex s)).
  - rewrite currentIndex_insertLayoutItem in *. rewrite signals_insertLayoutItem.
    destruct (item li); [|done]. by destruct (itemCount s =? 0).
  - by destruct (Hop index).
  - unfold setAnimator in Hch. by destruct (sameAnimator (animator s) a).
  - done.
Qed.

(** ** The index state machine: claims *)

(** C1 (defect of the code).  The claim: after any sequence of insertions,
    removals and index switches without an animator, a visible child is
    the child at [currentIndex], also when a child is inserted at or before
    the current index.  [layoutItemInserted] ignores the position of the
    new child and never shifts [currentIndex], unlike [layoutItemRemoved]:
    after [A] is added to an empty box the visible child is the current
    one, at index 0; once [B] is inserted at position 0, [currentIndex] is
    still 0 and designates the hidden [B], while the visible child [A]
    sits at index 1. *)
Theorem C1_insert_before_current_breaks_oneVisible :
  let s1 := performAll [OpInsert (page 1) (-1)] offscreen in
  let s2 := perform (OpInsert (page 2) 0) s1 in
  (oneVisible s1 /\ currentIndex s1 = 0 /\ insertPosition s1 0 = 0%nat) /\
  currentIndex s2 = 0 /\
  (ident <$> currentItem s2) = Some 2%nat /\
  visibilities s2 = [Some false; Some true] /\
  ~ oneVisible s2.
Proof.
  cbv zeta. split; [split; [|split]|split; [|split; [|split]]].
  - apply oneVisible_performAll; [done|apply oneVisible_new|].
    simpl. unfold insertPosition. simpl. lia.
  - vm_compute; reflexivity.
  - vm_compute; reflexivity.
  - vm_compute; reflexivity.
  - vm_compute; reflexivity.
  - vm_compute; reflexivity.
  - intros H.
    assert (E : itemAtIndex
                  (perform (OpInsert (page 2) 0)
                     (performAll [OpInsert (page 1) (-1)] offscreen)) 1
                = Some (mkItem 1 true (fun _ => -1)%Q (fun _ => -1)%Q))
      by (vm_compute; reflexivity).
    specialize (H 1 _ E eq_refl). vm_compute in H. discriminate H.
Qed.

(** C2 (defect of the code).  The claim: removing the current child, when
    it is the last one of a stack with other children, selects the new
    last index.  [layoutItemRemoved] computes that index in [newIndex] but
    then calls [setCurrentIndex( index )] with the removed position, which
    is out of range and clamps to [-1]: from [A, B] with [B] current,
    removing [B] leaves [currentIndex = -1], [A] hidden and no signal,
    where the new last index is [itemCount - 1 = 0]. *)
Theorem C2_removing_last_current_child_selects_nothing :
  let s := performAll [OpInsert (page 1) (-1); OpInsert (page 2) (-1);
                       OpSetCurrentIndex 1] offscreen in
  let s' := removeAt 1 s in
  currentIndex s = 1 /\ itemCount s = 2 /\
  itemCount s' = 1 /\ currentIndex s' = -1 /\ currentIndex s' <> itemCount s' - 1 /\
  visibilities s' = [Some false] /\
  currentIndexChanged s' = currentIndexChanged s.
Proof.
  cbv zeta. split; [|split; [|split; [|split; [|split; [|split]]]]].
  - vm_compute; reflexivity.
  - vm_compute; reflexivity.
  - vm_compute; reflexivity.
  - vm_compute; reflexivity.
  - vm_compute. discriminate.
  - vm_compute; reflexivity.
  - vm_compute; reflexivity.
Qed.

(** C3 (defect of the code).  The claim: no step changes [currentIndex]
    without emitting one [currentIndexChanged] carrying the new value,
    removals included.  [layoutItemRemoved] decrements [currentIndex]
    without a signal when an earlier child goes (the source asks
    "currentIndexChanged ???" at that line), and clears it to [-1] without
    a signal when the only child goes: from [A, B, C] with [C] current,
    removing [A] moves the index from 2 to 1 silently; from [A] alone,
    removing [A] moves it from 0 to [-1] silently. *)
Theorem C3_removal_changes_index_silently :
  let s := threePages in
  let t := performAll [OpInsert (page 1) (-1)] offscreen in
  (currentIndex s = 2 /\ currentIndex (removeAt 0 s) = 1 /\
   currentIndexChanged (removeAt 0 s) = currentIndexChanged s) /\
  (currentIndex t = 0 /\ currentIndex (removeAt 0 t) = -1 /\
   currentIndexChanged (removeAt 0 t) = currentIndexChanged t).
Proof.
  cbv zeta. split; (split; [|split]); vm_compute; reflexivity.
Qed.

(** C4, the claim as stated fails: on a box that is on screen, painted and
    has an animator, [setCurrentIndex] with an index out of range commits
    [-1] and hands the transition to the animator without hiding the
    child that was current. *)
Lemma C4_animated_switch_keeps_previous_child_visible :
  reachable onscreen /\
  7 >= itemCount onscreen /\
  currentIndex (setCurrentIndex 7 onscreen) = -1 /\
  visible <$> itemAtIndex (setCurrentIndex 7 onscreen) (currentIndex onscreen)
    = Some true /\
  ~ previousHidden onscreen (setCurrentIndex 7 onscreen).
Proof.
  split; [|split; [|split; [|split]]].
  - apply reachable_performAll. constructor.
  - vm_compute. discriminate.
  - vm_compute; reflexivity.
  - vm_compute; reflexivity.
  - intros H.
    assert (E : currentItem onscreen
                = Some (mkItem 1 true (fun _ => -1)%Q (fun _ => -1)%Q))
      by (vm_compute; reflexivity).
    specialize (H _ E). vm_compute in H. discriminate H.
Qed.

(** C4 (amended).  For every index outside [0, itemCount) and every state
    of the box, [setCurrentIndex] returns with [currentIndex = -1]; in the
    synchronous branch the child that was current is hidden; in the
    animated branch the children are left as they are, for the animator to
    switch. *)
Theorem C4_out_of_range_index_selects_nothing (s : QskStackBox) (index : Z) :
  index < 0 \/ index >= itemCount s ->
  currentIndex (setCurrentIndex index s) = -1 /\
  (animated s = false -> previousHidden s (setCurrentIndex index s)) /\
  (animated s = true -> engine (setCurrentIndex index s) = engine s).
Proof.
  intros Hout. pose proof (clampIndex_out s index Hout) as Hc.
  split; [|split].
  - by rewrite currentIndex_setCurrentIndex.
  - intros Ha it Hit. unfold currentItem in Hit.
    pose proof (itemAtIndex_Some _ _ _ Hit) as Hr.
    rewrite setCurrentIndex_synchronous, Hc by done.
    destruct (Z.eqb_spec (-1) (currentIndex s)) as [E|E]; [lia|].
    rewrite itemAtIndex_commit, !itemAtIndex_setVisibleAt.
    destruct (decide (-1 = currentIndex s)); [lia|].
    destruct (decide (currentIndex s = currentIndex s)); [|done].
    erewrite itemAtIndex_engine; [rewrite Hit; reflexivity|].
    by destruct (effectiveAnimator s).
  - intros Ha. rewrite engine_setCurrentIndex, Ha. by rewrite orb_true_r.
Qed.

Lemma C4_out_of_range_index_selects_nothing_witness :
  (currentIndex (setCurrentIndex 2 twoPages) = -1 /\
   previousHidden twoPages (setCurrentIndex 2 twoPages)) /\
  (currentIndex (setCurrentIndex (-3) onscreen) = -1 /\
   engine (setCurrentIndex (-3) onscreen) = engine onscreen).
Proof.
  split.
  - destruct (C4_out_of_range_index_selects_nothing twoPages 2) as (H1 & H2 & _).
    + right. vm_compute. discriminate.
    + split; [exact H1|]. apply H2. vm_compute. reflexivity.
  - destruct (C4_out_of_range_index_selects_nothing onscreen (-3)) as (H1 & _ & H3).
    + left. lia.
    + split; [exact H1|]. apply H3. vm_compute. reflexivity.
Defined.

(** C5.  On a reachable box, [setCurrentIndex( currentIndex() )], and
    [setCurrentIndex] with any index that clamps to the current one,
    returns the box as it was: same [currentIndex], no signal added, every
    child as visible as before, and an animator that received no call. *)
Theorem C5_setCurrentIndex_current_is_noop (s : QskStackBox) :
  reachable s ->
  setCurrentIndex (currentIndex s) s = s /\
  forall index, clampIndex s index = currentIndex s -> setCurrentIndex index s = s.
Proof.
  intros Hs. apply reachable_indexInRange in Hs.
  assert (H : forall index, clampIndex s index = currentIndex s ->
                setCurrentIndex index s = s).
  { intros index E. unfold setCurrentIndex. by rewrite E, Z.eqb_refl. }
  split; [|done]. apply H. by apply clampIndex_current.
Qed.

Lemma C5_setCurrentIndex_current_is_noop_witness :
  setCurrentIndex (currentIndex onscreen) onscreen = onscreen /\
  setCurrentIndex 9 allHidden = allHidden.
Proof.
  split.
  - refine (proj1 (C5_setCurrentIndex_current_is_noop onscreen _)).
    apply reachable_performAll. constructor.
  - refine (proj2 (C5_setCurrentIndex_current_is_noop allHidden _) 9 _).
    + apply reachable_performAll. constructor.
    + vm_compute. reflexivity.
Defined.

(** C6.  When [layoutItemRemoved] is called with an index below
    [currentIndex], the box it returns is the box it got with
    [currentIndex] one less and nothing else changed (no signal, no
    visibility change, no call to the animator); and after the removal of
    such a child the decremented index designates the child that was
    current before. *)
Theorem C6_removal_below_current_decrements (s : QskStackBox) (index : Z) :
  index < currentIndex s ->
  layoutItemRemoved index s = withCurrentIndex (currentIndex s - 1) s /\
  (0 <= index < itemCount s ->
   currentIndex (removeAt index s) = currentIndex s - 1 /\
   currentItem (removeAt index s) = currentItem s).
Proof.
  intros Hlt.
  assert (Hhook : forall t, index < currentIndex t ->
            layoutItemRemoved index t = withCurrentIndex (currentIndex t - 1) t).
  { intros t Ht. rewrite layoutItemRemoved_bookkeeping.
    destruct (Z.eqb_spec index (currentIndex t)); [lia|].
    destruct (Z.ltb_spec index (currentIndex t)); [done|lia]. }
  split; [by apply Hhook|]. intros Hin.
  rewrite removeAt_inside by lia.
  rewrite Hhook by done. cbn [currentIndex withEngine withCurrentIndex].
  split; [done|]. unfold currentItem.
  cbn [currentIndex withEngine withCurrentIndex].
  rewrite (itemAtIndex_engine _ (withEngine (delete (Z.to_nat index) (engine s)) s))
    by reflexivity.
  replace (currentIndex s - 1) with (Z.of_nat (Z.to_nat (currentIndex s - 1))) by lia.
  rewrite itemAtIndex_delete.
  destruct (decide _) as [L|L]; [lia|].
  f_equal. lia.
Qed.

Lemma C6_removal_below_current_decrements_witness :
  layoutItemRemoved 0 threePages = withCurrentIndex 1 threePages /\
  currentIndex (removeAt 0 threePages) = 1 /\
  currentItem (removeAt 0 threePages) = currentItem threePages.
Proof.
  destruct (C6_removal_below_current_decrements threePages 0) as [H1 H2].
  - vm_compute. reflexivity.
  - split; [exact H1|]. apply H2. vm_compute. split; [discriminate|reflexivity].
Defined.

(** C7.  Inserting a child into an empty box sets [currentIndex] to 0,
    shows the child and emits one [currentIndexChanged( 0 )]; inserting a
    child into a box that has children keeps [currentIndex], hides the new
    child and emits nothing. *)
Theorem C7_insertion_selects_first_child_only (s : QskStackBox)
    (li : QskLayoutItem) (index : Z) (it : QQuickItem) :
  item li = Some it ->
  let s' := insertLayoutItem li index s in
  (itemCount s = 0 ->
     itemCount s' = 1 /\ currentIndex s' = 0 /\
     itemAtIndex s' 0 = Some (setVisible true it) /\
     currentIndexChanged s' = currentIndexChanged s ++ [0]) /\
  (0 < itemCount s ->
     currentIndex s' = currentIndex s /\
     itemAtIndex s' (Z.of_nat (insertPosition s index)) = Some (setVisible false it) /\
     currentIndexChanged s' = currentIndexChanged s).
Proof.
  intros Hit s'. subst s'.
  pose proof (insertPosition_le s index) as Hp.
  assert (Hat : itemAtIndex (insertLayoutItem li index s)
                  (Z.of_nat (insertPosition s index))
                = Some (setVisible (itemCount s =? 0) it)).
  { rewrite itemAtIndex_nat, engine_insertLayoutItem, lookup_insertAt_eq by done.
    unfold entered. rewrite Hit. cbn. by rewrite Hit. }
  rewrite itemCount_insertLayoutItem, currentIndex_insertLayoutItem,
    signals_insertLayoutItem, Hit.
  split; intros Hc.
  - assert (E : insertPosition s index = 0%nat) by (unfold itemCount in Hc; lia).
    rewrite E, Hc in Hat. rewrite Hc. by repeat split.
  - destruct (Z.eqb_spec (itemCount s) 0) as [E|E]; [lia|]. by repeat split.
Qed.

Lemma C7_insertion_selects_first_child_only_witness :
  let it := mkItem 4 true (fun _ => -1)%Q (fun _ => -1)%Q in
  let s1 := insertLayoutItem (page 4) (-1) offscreen in
  let s2 := insertLayoutItem (page 4) 1 twoPages in
  (itemCount s1 = 1 /\ currentIndex s1 = 0 /\
   itemAtIndex s1 0 = Some (setVisible true it) /\
   currentIndexChanged s1 = currentIndexChanged offscreen ++ [0]) /\
  (currentIndex s2 = currentIndex twoPages /\
   itemAtIndex s2 (Z.of_nat (insertPosition twoPages 1)) = Some (setVisible false it) /\
   currentIndexChanged s2 = currentIndexChanged twoPages).
Proof.
  cbv zeta. split.
  - apply (C7_insertion_selects_first_child_only offscreen (page 4) (-1)
             (mkItem 4 true (fun _ => -1)%Q (fun _ => -1)%Q) eq_refl).
    vm_compute. reflexivity.
  - apply (C7_insertion_selects_first_child_only twoPages (page 4) 1
             (mkItem 4 true (fun _ => -1)%Q (fun _ => -1)%Q) eq_refl).
    vm_compute. reflexivity.
Defined.

(** ** Size negotiation: loops over the children *)

Lemma fold_left_pointwise {A B : Type} (f g : A -> B -> A) (l : list B) (a : A) :
  (forall a x, f a x = g a x) -> fold_left f l a = fold_left g l a.
Proof.
  intros E. revert a. induction l as [|x l IH]; intros a; [done|].
  simpl. by rewrite E, IH.
Qed.

(** A loop that reads entry [i] at step [i] visits the entries in
    order. *)
Lemma fold_seq_lookup {A B : Type} (g : option B -> A -> A) (l pre : list B) (a : A) :
  fold_left (fun acc i => g ((pre ++ l) !! i) acc) (seq (length pre) (length l)) a
  = fold_left (fun acc x => g (Some x) acc) l a.
Proof.
  revert pre a. induction l as [|x l IH]; intros pre a; [done|].
  cbn [length seq fold_left].
  rewrite list_lookup_middle by done.
  specialize (IH (pre ++ [x]) (g (Some x) a)).
  rewrite length_app, Nat.add_1_r in IH. cbn [length] in IH.
  rewrite <- IH. apply fold_left_pointwise.
  intros acc i. by rewrite <- app_assoc.
Qed.

Lemma forIndex_engine {A : Type} (s : QskStackBox)
    (g : option QskLayoutItem -> A -> A) (a : A) :
  forIndex (itemCount s) (fun i acc => g (layoutItemAt s i) acc) a
  = fold_left (fun acc li => g (Some li) acc) (engine s) a.
Proof.
  unfold forIndex, itemCount. rewrite Nat2Z.id.
  rewrite <- (fold_seq_lookup g (engine s) [] a).
  apply fold_left_pointwise. intros acc i. by rewrite layoutItemAt_nat.
Qed.

(** *** Comparisons *)

Lemma Qgtb_true (a b : Q) : Qgtb a b = true <-> (b < a)%Q.
Proof.
  unfold Qgtb. rewrite negb_true_iff. split.
  - intros H. apply Qnot_le_lt. intros Hle.
    apply Qle_bool_iff in Hle. congruence.
  - intros H. destruct (Qle_bool a b) eqn:E; [|done].
    apply Qle_bool_iff in E. lra.
Qed.

Lemma Qgtb_false (a b : Q) : Qgtb a b = false <-> (a <= b)%Q.
Proof.
  unfold Qgtb. rewrite negb_false_iff. apply Qle_bool_iff.
Qed.

Lemma Qgeb_true (a b : Q) : Qgeb a b = true <-> (b <= a)%Q.
Proof. unfold Qgeb. apply Qle_bool_iff. Qed.

Lemma Qgeb_false (a b : Q) : Qgeb a b = false <-> (a < b)%Q.
Proof.
  unfold Qgeb. split.
  - intros H. apply Qnot_le_lt. intros Hle.
    apply Qle_bool_iff in Hle. congruence.
  - intros H. destruct (Qle_bool b a) eqn:E; [|done].
    apply Qle_bool_iff in E. lra.
Qed.

(** *** Maxima *)

(** Once a child reports [-1] or more, the greatest of [-1] and the
    values is the greatest of the values. *)
Lemma isMaxFrom_isMax (r : Q) (vals : list Q) :
  isMaxFrom r vals ->
  (exists v, v ∈ vals /\ (-1 <= v)%Q) ->
  exists m, (m == r)%Q /\ isMax m vals.
Proof.
  intros (Hin & Hlo & Hub) (v & Hv & Hv1).
  destruct Hin as [->|Hin].
  - exists v. split.
    + apply Qle_antisym; [by apply Hub|done].
    + split; [done|]. intros v' Hv'. apply Hub in Hv'. lra.
  - exists r. split; [reflexivity|]. by split.
Qed.

Lemma runningMax_spec (keep : Q -> Q -> bool) (vals : list Q) (acc : Q) :
  (forall v a, keep v a = true -> (a <= v)%Q) ->
  (forall v a, keep v a = false -> (v <= a)%Q) ->
  let r := runningMax keep acc vals in
  (r = acc \/ r ∈ vals) /\ (acc <= r)%Q /\ forall v, v ∈ vals -> (v <= r)%Q.
Proof.
  intros Ht Hf. revert acc. induction vals as [|x vals IH]; intros acc; simpl.
  - split; [by left|]. split; [lra|]. intros v Hv. by apply elem_of_nil in Hv.
  - unfold runningMax. cbn [fold_left].
    fold (runningMax keep (if keep x acc then x else acc) vals).
    destruct (IH (if keep x acc then x else acc)) as (Hin & Hlo & Hub).
    destruct (keep x acc) eqn:E.
    + apply Ht in E. split; [|split].
      * right. destruct Hin as [->|Hin]; [left|by right].
      * lra.
      * intros v Hv. apply elem_of_cons in Hv as [->|Hv]; [done|by apply Hub].
    + apply Hf in E. split; [|split].
      * destruct Hin as [->|Hin]; [by left|right; by right].
      * done.
      * intros v Hv. apply elem_of_cons in Hv as [->|Hv]; [lra|by apply Hub].
Qed.

Lemma runningMax_gt_spec (acc : Q) (vals : list Q) :
  let r := runningMax Qgtb acc vals in
  (r = acc \/ r ∈ vals) /\ (acc <= r)%Q /\ forall v, v ∈ vals -> (v <= r)%Q.
Proof.
  apply runningMax_spec.
  - intros v a H. apply Qgtb_true in H. lra.
  - intros v a H. by apply Qgtb_false in H.
Qed.

Lemma runningMax_ge_spec (acc : Q) (vals : list Q) :
  let r := runningMax Qgeb acc vals in
  (r = acc \/ r ∈ vals) /\ (acc <= r)%Q /\ forall v, v ∈ vals -> (v <= r)%Q.
Proof.
  apply runningMax_spec.
  - intros v a H. by apply Qgeb_true in H.
  - intros v a H. apply Qgeb_false in H. lra.
Qed.

(** ** The scalar metric *)

Lemma qskConstrainedValue_runningMax (type : ConstraintType) (s : QskStackBox) (x : Q) :
  qskConstrainedValue type s x = runningMax Qgtb (-1) (childMetrics type s x).
Proof.
  unfold qskConstrainedValue, itemAtIndex.
  rewrite (forIndex_engine s
    (fun oli constrainedValue =>
       match oli ≫= item with
       | Some it =>
           let v := match type with
                    | WidthForHeight => itemWidthForHeight
                    | _ => itemHeightForWidth
                    end it x in
           if Qgtb v constrainedValue then v else constrainedValue
       | None => constrainedValue
       end)).
  unfold childMetrics, children, runningMax.
  generalize (-1)%Q. induction (engine s) as [|li l IH]; intros acc; [done|].
  cbn [fold_left omap list_omap mbind option_bind].
  destruct (item li) as [it|]; cbn [map fold_left]; rewrite IH; [|done].
  by destruct type.
Qed.

Lemma children_alter_setItemVisible (type : ConstraintType) (b : bool) (k : nat)
    (l : list QskLayoutItem) (x : Q) :
  map (fun it => childMetric type it x) (omap item (alter (setItemVisible b) k l))
  = map (fun it => childMetric type it x) (omap item l).
Proof.
  revert k. induction l as [|li l IH]; intros k; [done|].
  destruct k as [|k]; cbn [alter list_alter omap list_omap].
  - cbn [item setItemVisible]. destruct (item li) as [it|]; cbn; [|done].
    by destruct type.
  - destruct (item li); cbn; by rewrite IH.
Qed.

Lemma childMetrics_setCurrentIndex (type : ConstraintType) (index : Z)
    (s : QskStackBox) (x : Q) :
  childMetrics type (setCurrentIndex index s) x = childMetrics type s x.
Proof.
  unfold childMetrics, children. rewrite engine_setCurrentIndex.
  destruct (_ || _); [done|].
  unfold setVisibleAt.
  destruct (clampIndex s index <? 0), (currentIndex s <? 0);
    cbn [engine withEngine]; by rewrite ?children_alter_setItemVisible.
Qed.

(** C8, the claim as stated fails: an empty box answers [-1], which no
    child reported, and a box whose only child reports [-2] answers [-1]
    as well, not [-2]. *)
Lemma C8_constrained_value_starts_from_minus_one :
  let s := addItem (mkLayoutItem (Some (mkItem 1 true (fun _ => -2)%Q (fun _ => -2)%Q))
                      false false Horizontal (fun _ _ => mkSize (-1) (-1))) offscreen in
  (heightForWidth offscreen 100 = (-1)%Q /\
   ~ isMax (heightForWidth offscreen 100) (childMetrics HeightForWidth offscreen 100)) /\
  (childMetrics HeightForWidth s 100 = [(-2)%Q] /\
   heightForWidth s 100 = (-1)%Q /\
   ~ isMax (heightForWidth s 100) (childMetrics HeightForWidth s 100)).
Proof.
  cbv zeta. split; [split|split; [|split]].
  - vm_compute; reflexivity.
  - intros [Hin _]. vm_compute in Hin. by apply elem_of_nil in Hin.
  - vm_compute; reflexivity.
  - vm_compute; reflexivity.
  - intros [Hin _]. vm_compute in Hin.
    apply elem_of_cons in Hin as [Hin|Hin]; [discriminate Hin|].
    by apply elem_of_nil in Hin.
Qed.

(** C8 (amended).  [heightForWidth( w )] is the greatest of [-1] and what
    the children, visible or hidden, answer for their height at [w];
    [widthForHeight( h )] likewise for their width at [h].  So it is the
    greatest of the children's answers as soon as one of them is [-1] or
    more.  Neither depends on which child is current. *)
Theorem C8_constrained_metric_is_max_over_children (s : QskStackBox) (x : Q) :
  isMaxFrom (heightForWidth s x) (childMetrics HeightForWidth s x) /\
  isMaxFrom (widthForHeight s x) (childMetrics WidthForHeight s x) /\
  ((exists v, v ∈ childMetrics HeightForWidth s x /\ (-1 <= v)%Q) ->
   exists m, (m == heightForWidth s x)%Q /\ isMax m (childMetrics HeightForWidth s x)) /\
  ((exists v, v ∈ childMetrics WidthForHeight s x /\ (-1 <= v)%Q) ->
   exists m, (m == widthForHeight s x)%Q /\ isMax m (childMetrics WidthForHeight s x)) /\
  forall index,
    heightForWidth (setCurrentIndex index s) x = heightForWidth s x /\
    widthForHeight (setCurrentIndex index s) x = widthForHeight s x.
Proof.
  assert (H : forall type,
            isMaxFrom (qskConstrainedValue type s x) (childMetrics type s x)).
  { intros type. rewrite qskConstrainedValue_runningMax.
    destruct (runningMax_gt_spec (-1) (childMetrics type s x)) as (Hin & Hlo & Hub).
    by repeat split. }
  unfold heightForWidth, widthForHeight, constrainedMetric.
  split; [apply H|]. split; [apply H|].
  split; [apply isMaxFrom_isMax, H|]. split; [apply isMaxFrom_isMax, H|].
  intros index.
  by rewrite !qskConstrainedValue_runningMax, !childMetrics_setCurrentIndex.
Qed.

Lemma C8_constrained_metric_is_max_over_children_witness :
  let child n (h w : Q) :=
    mkLayoutItem (Some (mkItem n true (fun _ => h) (fun _ => w)))
      false false Horizontal (fun _ _ => mkSize (-1) (-1)) in
  let s := addItem (child 2%nat 70%Q 20%Q) (addItem (child 1%nat 50%Q 30%Q) offscreen) in
  (heightForWidth s 100 = 70%Q /\ widthForHeight s 100 = 30%Q) /\
  (exists m, (m == heightForWidth s 100)%Q /\ isMax m (childMetrics HeightForWidth s 100)) /\
  (exists m, (m == widthForHeight s 100)%Q /\ isMax m (childMetrics WidthForHeight s 100)).
Proof.
  cbv zeta. split; [split; vm_compute; reflexivity|].
  match goal with |- (exists m, (m == heightForWidth ?s ?x)%Q /\ _) /\ _ =>
    destruct (C8_constrained_metric_is_max_over_children s x) as (_ & _ & Hh & Hw & _)
  end.
  split; [apply Hh|apply Hw].
  - exists 50%Q. split; [|vm_compute; discriminate].
    vm_compute. apply elem_of_cons. by left.
  - exists 30%Q. split; [|vm_compute; discriminate].
    vm_compute. apply elem_of_cons. by left.
Defined.

(** ** The preferred size *)

Lemma firstLoop_fold (c : QSizeF) (l : list QskLayoutItem) (w h : Q) (co : Z) :
  fold_left (fun acc li => firstLoop c (Some li) acc) l (w, h, co) =
    (runningMax Qgeb w (map (fun li => width (preferred c li)) (List.filter unconstrained l)),
     runningMax Qgeb h (map (fun li => height (preferred c li)) (List.filter unconstrained l)),
     Z.lor co (orientations l)).
Proof.
  revert w h co. induction l as [|li l IH]; intros w h co.
  - simpl. by rewrite Z.lor_0_r.
  - assert (Eu : unconstrained li = negb (hasDynamicConstraint li)) by done.
    cbn [fold_left firstLoop List.filter orientations fold_right].
    fold (orientations l). rewrite Eu.
    destruct (hasDynamicConstraint li); cbn [negb].
    + rewrite IH. by rewrite Z.lor_assoc.
    + rewrite IH. reflexivity.
Qed.

Lemma horizontalLoop_fold (c : QSizeF) (l : list QskLayoutItem) (w : Q) (q : list Query) :
  fold_left (fun acc li => horizontalLoop c (Some li) acc) l (w, q) =
    (runningMax Qgtb w
       (map (fun li => width (preferred c li)) (List.filter (constrainedAlong Horizontal) l)),
     q ++ map (fun li => (li, c)) (List.filter (constrainedAlong Horizontal) l)).
Proof.
  revert w q. induction l as [|li l IH]; intros w q.
  - simpl. by rewrite app_nil_r.
  - cbn [fold_left horizontalLoop List.filter].
    destruct (constrainedAlong Horizontal li).
    + rewrite IH. cbn [map]. by rewrite <- app_assoc.
    + by rewrite IH.
Qed.

Lemma verticalLoop_fold (c : QSizeF) (l : list QskLayoutItem) (h : Q) (q : list Query) :
  fold_left (fun acc li => verticalLoop c (Some li) acc) l (h, q) =
    (runningMax Qgtb h
       (map (fun li => height (preferred c li)) (List.filter (constrainedAlong Vertical) l)),
     q ++ map (fun li => (li, c)) (List.filter (constrainedAlong Vertical) l)).
Proof.
  revert h q. induction l as [|li l IH]; intros h q.
  - simpl. by rewrite app_nil_r.
  - cbn [fold_left verticalLoop List.filter].
    destruct (constrainedAlong Vertical li).
    + rewrite IH. cbn [map]. by rewrite <- app_assoc.
    + by rewrite IH.
Qed.

(** A clear bit in [constraintOrientation] means that no entry is
    constrained along that orientation, so the loop that is skipped would
    not have asked anything. *)
Lemma orientations_clear (o : Orientation) (l : list QskLayoutItem) :
  Z.land (orientations l) (orientationFlag o) = 0 ->
  List.filter (constrainedAlong o) l = [].
Proof.
  induction l as [|li l IH]; [done|].
  cbn [orientations fold_right List.filter]. fold (orientations l).
  unfold constrainedAlong at 1.
  destruct (hasDynamicConstraint li); cbn [andb]; [|done].
  rewrite Z.land_lor_distr_l. intros H.
  apply Z.lor_eq_0_iff in H as [H1 H2].
  destruct (dynamicConstraintOrientation li), o; try discriminate H1;
    cbn; by apply IH.
Qed.

Lemma layoutItemsSizeHintRun_loops (s : QskStackBox) :
  layoutItemsSizeHintRun s =
    mkRun (mkSize (firstWidth (engine s)) (firstHeight (engine s)))
      (map (fun li => (li, mkSize (-1) (firstHeight (engine s))))
         (List.filter (constrainedAlong Horizontal) (engine s)))
      (map (fun li => (li, mkSize (finalWidth (engine s)) (-1)))
         (List.filter (constrainedAlong Vertical) (engine s)))
      (mkSize (finalWidth (engine s)) (finalHeight (engine s))).
Proof.
  unfold layoutItemsSizeHintRun.
  rewrite (forIndex_engine s (firstLoop (mkSize (-1) (-1)))), firstLoop_fold.
  fold (firstWidth (engine s)) (firstHeight (engine s)).
  rewrite Z.lor_0_l.
  rewrite (forIndex_engine s (horizontalLoop _)), horizontalLoop_fold.
  unfold setHeight, setWidth. cbn [width height app].
  fold (finalWidth (engine s)).
  destruct (Z.eqb_spec (Z.land (orientations (engine s)) (orientationFlag Horizontal)) 0)
    as [EH|EH]; cbn [negb].
  - assert (Hw : finalWidth (engine s) = firstWidth (engine s))
      by (unfold finalWidth; by rewrite (orientations_clear Horizontal)).
    rewrite (orientations_clear Horizontal _ EH). rewrite Hw. cbn [map].
    rewrite (forIndex_engine s (verticalLoop _)), verticalLoop_fold.
    cbn [width height app]. rewrite <- Hw. fold (finalHeight (engine s)).
    destruct (Z.eqb_spec (Z.land (orientations (engine s)) (orientationFlag Vertical)) 0)
      as [EV|EV]; cbn [negb]; [|done].
    assert (Hh : finalHeight (engine s) = firstHeight (engine s))
      by (unfold finalHeight; by rewrite (orientations_clear Vertical)).
    rewrite (orientations_clear Vertical _ EV). by rewrite Hh.
  - rewrite (forIndex_engine s (verticalLoop _)), verticalLoop_fold.
    cbn [width height app]. fold (finalHeight (engine s)).
    destruct (Z.eqb_spec (Z.land (orientations (engine s)) (orientationFlag Vertical)) 0)
      as [EV|EV]; cbn [negb]; [|done].
    assert (Hh : finalHeight (engine s) = firstHeight (engine s))
      by (unfold finalHeight; by rewrite (orientations_clear Vertical)).
    rewrite (orientations_clear Vertical _ EV). by rewrite Hh.
Qed.

Lemma layoutItemsSizeHint_loops (s : QskStackBox) :
  layoutItemsSizeHint s = mkSize (finalWidth (engine s)) (finalHeight (engine s)).
Proof. unfold layoutItemsSizeHint. by rewrite layoutItemsSizeHintRun_loops. Qed.

(** Showing or hiding a child changes none of the answers the loops look
    at. *)
Lemma map_filter_setItemVisible {B : Type} (p : QskLayoutItem -> bool)
    (f : QskLayoutItem -> B) (b : bool) (k : nat) (l : list QskLayoutItem) :
  (forall li, p (setItemVisible b li) = p li) ->
  (forall li, f (setItemVisible b li) = f li) ->
  map f (List.filter p (alter (setItemVisible b) k l)) = map f (List.filter p l).
Proof.
  intros Hp Hf. revert k. induction l as [|li l IH]; intros k; [done|].
  destruct k as [|k]; cbn [alter list_alter List.filter].
  - rewrite Hp. destruct (p li); cbn [map]; by rewrite ?Hf.
  - destruct (p li); cbn [map]; by rewrite IH.
Qed.

Lemma finalSize_setItemVisible (b : bool) (k : nat) (l : list QskLayoutItem) :
  finalWidth (alter (setItemVisible b) k l) = finalWidth l /\
  finalHeight (alter (setItemVisible b) k l) = finalHeight l.
Proof.
  assert (Hw : firstWidth (alter (setItemVisible b) k l) = firstWidth l)
    by (unfold firstWidth; by rewrite map_filter_setItemVisible).
  assert (Hh : firstHeight (alter (setItemVisible b) k l) = firstHeight l)
    by (unfold firstHeight; by rewrite map_filter_setItemVisible).
  assert (Hf : finalWidth (alter (setItemVisible b) k l) = finalWidth l)
    by (unfold finalWidth; by rewrite Hw, Hh, map_filter_setItemVisible).
  split; [done|].
  unfold finalHeight. by rewrite Hf, Hh, map_filter_setItemVisible.
Qed.

Lemma finalSize_setVisibleAt (i : Z) (b : bool) (s : QskStackBox) :
  finalWidth (engine (setVisibleAt i b s)) = finalWidth (engine s) /\
  finalHeight (engine (setVisibleAt i b s)) = finalHeight (engine s).
Proof.
  unfold setVisibleAt. destruct (i <? 0); [done|]. apply finalSize_setItemVisible.
Qed.

Lemma layoutItemsSizeHint_setCurrentIndex (index : Z) (s : QskStackBox) :
  layoutItemsSizeHint (setCurrentIndex index s) = layoutItemsSizeHint s.
Proof.
  rewrite !layoutItemsSizeHint_loops, engine_setCurrentIndex.
  destruct (_ || _); [done|].
  destruct (finalSize_setVisibleAt (clampIndex s index) true
              (setVisibleAt (currentIndex s) false s)) as [-> ->].
  by destruct (finalSize_setVisibleAt (currentIndex s) false s) as [-> ->].
Qed.

Lemma filter_all {B : Type} (p : B -> bool) (l : list B) :
  (forall x, x ∈ l -> p x = true) -> List.filter p l = l.
Proof.
  induction l as [|x l IH]; intros H; [done|].
  cbn [List.filter]. rewrite H by (apply elem_of_cons; by left).
  f_equal. apply IH. intros y Hy. apply H. apply elem_of_cons. by right.
Qed.

Lemma filter_none {B : Type} (p : B -> bool) (l : list B) :
  (forall x, x ∈ l -> p x = false) -> List.filter p l = [].
Proof.
  induction l as [|x l IH]; intros H; [done|].
  cbn [List.filter]. rewrite H by (apply elem_of_cons; by left).
  apply IH. intros y Hy. apply H. apply elem_of_cons. by right.
Qed.

(** C9, the claim as stated fails: the size of an empty box is [(-1, -1)],
    which is the preferred size of no child, and a box whose only child
    prefers [(-2, -2)] answers [(-1, -1)] as well. *)
Lemma C9_preferred_size_starts_from_minus_one :
  let s := addItem (sized 1 (-2) (-2)) offscreen in
  (layoutItemsSizeHint offscreen = mkSize (-1) (-1) /\
   ~ isMax (width (layoutItemsSizeHint offscreen)) (preferredWidths offscreen)) /\
  (preferredWidths s = [(-2)%Q] /\ preferredHeights s = [(-2)%Q] /\
   layoutItemsSizeHint s = mkSize (-1) (-1) /\
   ~ isMax (width (layoutItemsSizeHint s)) (preferredWidths s) /\
   ~ isMax (height (layoutItemsSizeHint s)) (preferredHeights s)).
Proof.
  cbv zeta. split; [split|split; [|split; [|split; [|split]]]].
  - vm_compute; reflexivity.
  - intros [Hin _]. vm_compute in Hin. by apply elem_of_nil in Hin.
  - vm_compute; reflexivity.
  - vm_compute; reflexivity.
  - vm_compute; reflexivity.
  - intros [Hin _]. vm_compute in Hin.
    apply elem_of_cons in Hin as [Hin|Hin]; [discriminate Hin|].
    by apply elem_of_nil in Hin.
  - intros [Hin _]. vm_compute in Hin.
    apply elem_of_cons in Hin as [Hin|Hin]; [discriminate Hin|].
    by apply elem_of_nil in Hin.
Qed.

(** C9 (amended).  When no child has a dynamic constraint, the width
    returned by [layoutItemsSizeHint] is the greatest of [-1] and the
    children's preferred widths, and the height the greatest of [-1] and
    their preferred heights; so each is the greatest over the children as
    soon as one child prefers [-1] or more on that axis.  The size does
    not depend on which child is current. *)
Theorem C9_preferred_size_is_max_per_axis (s : QskStackBox) :
  (forall li, li ∈ engine s -> hasDynamicConstraint li = false) ->
  let r := layoutItemsSizeHint s in
  isMaxFrom (width r) (preferredWidths s) /\
  isMaxFrom (height r) (preferredHeights s) /\
  ((exists v, v ∈ preferredWidths s /\ (-1 <= v)%Q) ->
   exists m, (m == width r)%Q /\ isMax m (preferredWidths s)) /\
  ((exists v, v ∈ preferredHeights s /\ (-1 <= v)%Q) ->
   exists m, (m == height r)%Q /\ isMax m (preferredHeights s)) /\
  forall index, layoutItemsSizeHint (setCurrentIndex index s) = r.
Proof.
  intros Hplain r. subst r. rewrite layoutItemsSizeHint_loops. cbn [width height].
  assert (Hu : List.filter unconstrained (engine s) = engine s).
  { apply filter_all. intros li Hli. unfold unconstrained. by rewrite Hplain. }
  assert (Hc : forall o, List.filter (constrainedAlong o) (engine s) = []).
  { intros o. apply filter_none. intros li Hli.
    unfold constrainedAlong. by rewrite Hplain. }
  assert (Hw : finalWidth (engine s) = runningMax Qgeb (-1) (preferredWidths s))
    by (unfold finalWidth, firstWidth; by rewrite Hc, Hu).
  assert (Hh : finalHeight (engine s) = runningMax Qgeb (-1) (preferredHeights s))
    by (unfold finalHeight, firstHeight; by rewrite Hc, Hu).
  assert (Mw : isMaxFrom (finalWidth (engine s)) (preferredWidths s)).
  { rewrite Hw.
    destruct (runningMax_ge_spec (-1) (preferredWidths s)) as (Hin & Hlo & Hub).
    by repeat split. }
  assert (Mh : isMaxFrom (finalHeight (engine s)) (preferredHeights s)).
  { rewrite Hh.
    destruct (runningMax_ge_spec (-1) (preferredHeights s)) as (Hin & Hlo & Hub).
    by repeat split. }
  split; [done|]. split; [done|].
  split; [by apply isMaxFrom_isMax|]. split; [by apply isMaxFrom_isMax|].
  intros index. by rewrite layoutItemsSizeHint_setCurrentIndex, layoutItemsSizeHint_loops.
Qed.

Lemma C9_preferred_size_is_max_per_axis_witness :
  let s := addItem (sized 2 80 70) (addItem (sized 1 100 50) offscreen) in
  let r := layoutItemsSizeHint s in
  r = mkSize 100 70 /\
  (exists m, (m == width r)%Q /\ isMax m (preferredWidths s)) /\
  (exists m, (m == height r)%Q /\ isMax m (preferredHeights s)) /\
  layoutItemsSizeHint (setCurrentIndex 1 s) = r.
Proof.
  cbv zeta.
  destruct (C9_preferred_size_is_max_per_axis
              (addItem (sized 2 80 70) (addItem (sized 1 100 50) offscreen)))
    as (_ & _ & Hw & Hh & Hcur).
  - apply Forall_forall. vm_compute. repeat constructor.
  - split; [vm_compute; reflexivity|].
    split; [apply Hw|split; [apply Hh|apply Hcur]].
    + exists 100%Q. split; [|vm_compute; discriminate].
      vm_compute. apply elem_of_cons. by left.
    + exists 50%Q. split; [|vm_compute; discriminate].
      vm_compute. apply elem_of_cons. by left.
Defined.

(** ** The second pass *)

(** C10, the claim as stated fails: the loop over the vertically
    constrained children runs after the loop over the horizontally
    constrained ones and passes the width that loop has reached.  In
    [mixed] the first pass ends at 10 x 10, the horizontal loop widens to
    50, and the third child is asked with width 50, which makes the
    height 50; asked with the first-pass width 10 it would have answered
    10. *)
Lemma C10_vertical_loop_sees_widened_width :
  let r := layoutItemsSizeHintRun mixed in
  firstPass r = mkSize 10 10 /\
  map snd (horizontalQueries r) = [mkSize (-1) 10] /\
  map snd (verticalQueries r) = [mkSize 50 (-1)] /\
  returned r = mkSize 50 50 /\
  ~ (forall q, q ∈ verticalQueries r -> (width (snd q) == width (firstPass r))%Q).
Proof.
  cbv zeta. split; [|split; [|split; [|split]]].
  - vm_compute; reflexivity.
  - vm_compute; reflexivity.
  - vm_compute; reflexivity.
  - vm_compute; reflexivity.
  - intros H.
    destruct (verticalQueries (layoutItemsSizeHintRun mixed)) as [|q l] eqn:E;
      [vm_compute in E; discriminate E|].
    specialize (H q ltac:(apply elem_of_cons; by left)).
    assert (Eq : snd q = mkSize 50 (-1)).
    { vm_compute in E. by injection E as <- _. }
    rewrite Eq in H. vm_compute in H. discriminate H.
Qed.

(** C10 (amended).  In the second pass the horizontally constrained
    children, all of them and no others, are asked with the height fixed
    at the first-pass height; the vertically constrained children, all of
    them and no others, are asked with the width fixed at the width
    reached after the horizontal loop, which is the width returned; that
    width is the first-pass width when no horizontally constrained child
    asks for more.  Each axis of the result is at least its first-pass
    value. *)
Theorem C10_second_pass_constraints (s : QskStackBox) :
  let r := layoutItemsSizeHintRun s in
  horizontalQueries r =
    map (fun li => (li, mkSize (-1) (height (firstPass r))))
      (List.filter (constrainedAlong Horizontal) (engine s)) /\
  verticalQueries r =
    map (fun li => (li, mkSize (width (returned r)) (-1)))
      (List.filter (constrainedAlong Vertical) (engine s)) /\
  (width (firstPass r) <= width (returned r))%Q /\
  (height (firstPass r) <= height (returned r))%Q /\
  ((forall q, q ∈ horizontalQueries r ->
      (width (preferred (snd q) (fst q)) <= width (firstPass r))%Q) ->
   width (returned r) = width (firstPass r)).
Proof.
  cbv zeta. rewrite layoutItemsSizeHintRun_loops.
  cbn [firstPass horizontalQueries verticalQueries returned width height].
  split; [done|]. split; [done|].
  destruct (runningMax_gt_spec (firstWidth (engine s))
              (map (fun li => width (preferred (mkSize (-1) (firstHeight (engine s))) li))
                 (List.filter (constrainedAlong Horizontal) (engine s))))
    as (Hwin & Hwlo & _).
  destruct (runningMax_gt_spec (firstHeight (engine s))
              (map (fun li => height (preferred (mkSize (finalWidth (engine s)) (-1)) li))
                 (List.filter (constrainedAlong Vertical) (engine s))))
    as (_ & Hhlo & _).
  split; [done|]. split; [done|].
  intros Hsmall. unfold finalWidth.
  generalize dependent (firstWidth (engine s)). intros w0 _ _ Hsmall.
  induction (List.filter (constrainedAlong Horizontal) (engine s)) as [|li l IH];
    [done|].
  unfold runningMax. cbn [map fold_left].
  assert (Hle : (width (preferred (mkSize (-1) (firstHeight (engine s))) li) <= w0)%Q).
  { apply (Hsmall (li, mkSize (-1) (firstHeight (engine s)))).
    cbn [map]. apply elem_of_cons. by left. }
  apply Qgtb_false in Hle. rewrite Hle. apply IH.
  intros q Hq. apply Hsmall. cbn [map]. apply elem_of_cons. by right.
Qed.

Lemma C10_second_pass_constraints_witness :
  let s := performAll
             [OpInsert (sized 1 10 10) (-1);
              OpInsert (mkLayoutItem (Some (mkItem 2 true (fun _ => -1)%Q (fun _ => -1)%Q))
                          false true Horizontal (fun _ c => mkSize 5 (height c))) (-1)]
             offscreen in
  let r := layoutItemsSizeHintRun s in
  map snd (horizontalQueries r) = [mkSize (-1) 10] /\
  width (returned r) = width (firstPass r).
Proof.
  cbv zeta. split; [vm_compute; reflexivity|].
  apply C10_second_pass_constraints.
  apply Forall_forall. vm_compute. repeat constructor. discriminate.
Defined.

(** * Further properties of the code *)

(** ** The index and the signals *)

(** X1.  Whatever sequence of switches, insertions, removals, animator and
    scene changes a box has gone through since its construction,
    [currentIndex] is [-1] or the index of a child, and [currentItem] is
    the child at that index. *)
Theorem X1_currentIndex_in_range (s : QskStackBox) :
  reachable s ->
  (currentIndex s = -1 /\ currentItem s = None) \/
  (0 <= currentIndex s < itemCount s /\
   currentItem s = engine s !! Z.to_nat (currentIndex s) ≫= item).
Proof.
  intros Hs. apply reachable_indexInRange in Hs as [Hlo Hhi].
  destruct (Z.eq_dec (currentIndex s) (-1)) as [E|E].
  - left. split; [done|]. unfold currentItem. by rewrite E.
  - right. split; [lia|]. unfold currentItem, itemAtIndex, layoutItemAt.
    destruct (Z.ltb_spec (currentIndex s) 0); [lia|done].
Qed.

Lemma X1_currentIndex_in_range_witness :
  (currentIndex (removeAt 1 threePages) = -1 /\
   currentItem (removeAt 1 threePages) = None) \/
  (0 <= currentIndex (removeAt 1 threePages) < itemCount (removeAt 1 threePages) /\
   currentItem (removeAt 1 threePages)
   = engine (removeAt 1 threePages)
       !! Z.to_nat (currentIndex (removeAt 1 threePages)) ≫= item).
Proof.
  apply (X1_currentIndex_in_range (removeAt 1 threePages)).
  apply (reachable_perform (OpRemove 1)).
  apply reachable_performAll. constructor.
Defined.

Lemma map_alter_same {A B : Type} (f : A -> B) (h : A -> A) (k : nat) (l : list A) :
  (forall x, f (h x) = f x) -> map f (alter h k l) = map f l.
Proof.
  intros E. revert k. induction l as [|x l IH]; intros k; [done|].
  destruct k as [|k]; cbn [alter list_alter map]; by rewrite ?E, ?IH.
Qed.

Lemma idents_setVisibleAt (i : Z) (b : bool) (s : QskStackBox) :
  idents (setVisibleAt i b s) = idents s.
Proof.
  unfold idents, setVisibleAt. destruct (i <? 0); [done|].
  cbn [engine withEngine]. apply map_alter_same.
  intros li. cbn. by destruct (item li).
Qed.

Lemma idents_setCurrentIndex (index : Z) (s : QskStackBox) :
  idents (setCurrentIndex index s) = idents s.
Proof.
  unfold idents at 1. rewrite engine_setCurrentIndex.
  destruct (_ || _); [done|].
  fold (idents (setVisibleAt (clampIndex s index) true
          (setVisibleAt (currentIndex s) false s))).
  by rewrite !idents_setVisibleAt.
Qed.

(** X3.  [setCurrentIndex( index )] commits [index] when it designates a
    child and [-1] otherwise; it emits one [currentIndexChanged] carrying
    the committed index when that differs from the index before, and
    nothing when it does not; it neither adds, removes nor reorders
    children. *)
Theorem X3_setCurrentIndex_commits_clamped_index (s : QskStackBox) (index : Z) :
  let s' := setCurrentIndex index s in
  currentIndex s' = (if (index <? 0) || (index >=? itemCount s) then -1 else index) /\
  currentIndexChanged s' =
    (if currentIndex s' =? currentIndex s then currentIndexChanged s
     else currentIndexChanged s ++ [currentIndex s']) /\
  itemCount s' = itemCount s /\
  idents s' = idents s.
Proof.
  cbv zeta. rewrite signals_setCurrentIndex, currentIndex_setCurrentIndex,
    itemCount_setCurrentIndex, idents_setCurrentIndex.
  by repeat split.
Qed.

(** X4.  Asking twice for the same index is asking once: the second
    [setCurrentIndex( index )] returns the box as the first one left it,
    without a second signal and without a call to the animator. *)
Theorem X4_setCurrentIndex_twice (s : QskStackBox) (index : Z) :
  setCurrentIndex index (setCurrentIndex index s) = setCurrentIndex index s.
Proof.
  assert (E : clampIndex (setCurrentIndex index s) index
              = currentIndex (setCurrentIndex index s)).
  { rewrite currentIndex_setCurrentIndex. unfold clampIndex.
    by rewrite itemCount_setCurrentIndex. }
  unfold setCurrentIndex at 1. by rewrite E, Z.eqb_refl.
Qed.

(** ** The animator *)

Lemma animator_calls_setCurrentIndex (s : QskStackBox) (index : Z) :
  animator (setCurrentIndex index s)
    = receivedAll (switchCalls s index) <$> animator s /\
  adjusted (setCurrentIndex index s)
    = adjusted s ++ (if negb (clampIndex s index =? currentIndex s) && animated s
                     then [clampIndex s index] else []).
Proof.
  unfold setCurrentIndex, switchCalls.
  destruct (clampIndex s index =? currentIndex s).
  - cbn [negb andb]. rewrite app_nil_r. split; [|done].
    destruct (animator s) as [[n cs]|]; [|done].
    unfold receivedAll. cbn. by rewrite app_nil_r.
  - generalize (clampIndex s index). intros c.
    destruct s as [e i [[n cs]|] [w|] [|] [|] adj sig]; cbn;
      unfold setVisibleAt; cbn;
      destruct (c <? 0), (i <? 0); cbn;
      unfold received, receivedAll; cbn [animatorId calls];
      rewrite ?app_nil_r, <- ?app_assoc; by split.
Qed.


(** ** The synchronous switch *)

Lemma itemAtIndex_setCurrentIndex_synchronous (s : QskStackBox) (index j : Z) :
  animated s = false ->
  itemAtIndex (setCurrentIndex index s) j =
    if clampIndex s index =? currentIndex s then itemAtIndex s j
    else if decide (clampIndex s index = j) then setVisible true <$> itemAtIndex s j
    else if decide (currentIndex s = j) then setVisible false <$> itemAtIndex s j
    else itemAtIndex s j.
Proof.
  intros Ha. rewrite setCurrentIndex_synchronous by done.
  destruct (clampIndex s index =? currentIndex s); [done|].
  rewrite itemAtIndex_commit, !itemAtIndex_setVisibleAt.
  assert (E : forall k, itemAtIndex match effectiveAnimator s with
                                    | Some _ => tellAnimator Stop s
                                    | None => s
                                    end k = itemAtIndex s k).
  { intros k. apply itemAtIndex_engine. by destruct (effectiveAnimator s). }
  rewrite E.
  destruct (decide (clampIndex s index = j)); [|done].
  destruct (decide (currentIndex s = j)); [|done].
  destruct (itemAtIndex s j); reflexivity.
Qed.

(** X6.  In the synchronous branch a switch that changes the index shows
    the child at the committed index, hides the child at the index
    before, and leaves every other child as it is. *)
Theorem X6_synchronous_switch_touches_two_children (s : QskStackBox) (index j : Z) :
  animated s = false ->
  itemAtIndex (setCurrentIndex index s) j =
    if clampIndex s index =? currentIndex s then itemAtIndex s j
    else if decide (clampIndex s index = j) then setVisible true <$> itemAtIndex s j
    else if decide (currentIndex s = j) then setVisible false <$> itemAtIndex s j
    else itemAtIndex s j.
Proof.
  intros Ha. rewrite setCurrentIndex_synchronous by done.
  destruct (clampIndex s index =? currentIndex s); [done|].
  rewrite itemAtIndex_commit, !itemAtIndex_setVisibleAt.
  assert (E : forall k, itemAtIndex match effectiveAnimator s with
                                    | Some _ => tellAnimator Stop s
                                    | None => s
                                    end k = itemAtIndex s k).
  { intros k. apply itemAtIndex_engine. by destruct (effectiveAnimator s). }
  rewrite E.
  destruct (decide (clampIndex s index = j)); [|done].
  destruct (decide (currentIndex s = j)); [|done].
  destruct (itemAtIndex s j); reflexivity.
Qed.

Lemma X6_synchronous_switch_touches_two_children_witness :
  visible <$> itemAtIndex (setCurrentIndex 0 threePages) 0 = Some true /\
  visible <$> itemAtIndex (setCurrentIndex 0 threePages) 2 = Some false /\
  itemAtIndex (setCurrentIndex 0 threePages) 1 = itemAtIndex threePages 1.
Proof.
  rewrite !(X6_synchronous_switch_touches_two_children threePages 0)
    by (vm_compute; reflexivity).
  split; [|split]; vm_compute; reflexivity.
Defined.

(** ** Exactly the current child is visible *)

Lemma currentShown_setCurrentIndex (index : Z) (s : QskStackBox) :
  animator s = None -> currentShown s -> currentShown (setCurrentIndex index s).
Proof.
  intros Ha Hc it Hit. unfold currentItem in Hit.
  rewrite currentIndex_setCurrentIndex in Hit.
  rewrite (itemAtIndex_setCurrentIndex_synchronous s index) in Hit
    by (by apply animated_None).
  destruct (Z.eqb_spec (clampIndex s index) (currentIndex s)) as [E|E].
  - apply Hc. unfold currentItem. by rewrite <- E.
  - destruct (decide (clampIndex s index = clampIndex s index)); [|done].
    destruct (itemAtIndex s (clampIndex s index)); by simplify_eq/=.
Qed.

Lemma currentShown_insertLayoutItem (li : QskLayoutItem) (index : Z) (s : QskStackBox) :
  currentShown s ->
  currentIndex s < Z.of_nat (insertPosition s index) ->
  currentShown (insertLayoutItem li index s).
Proof.
  intros Hc Hb it Hit. unfold currentItem in Hit.
  pose proof (insertPosition_le s index) as Hp.
  pose proof (itemAtIndex_Some _ _ _ Hit) as Hr.
  rewrite (itemAtIndex_withEngine _ _ s _ (engine_insertLayoutItem li index s)) in Hit.
  rewrite currentIndex_insertLayoutItem in Hit, Hr.
  assert (Hold : itemAtIndex
                   (withEngine (insertAt (insertPosition s index)
                                  (entered (itemCount s =? 0) li) (engine s)) s)
                   (currentIndex s) = Some it -> visible it = true).
  { intros H. pose proof (itemAtIndex_Some _ _ _ H) as Hr'.
    replace (currentIndex s) with (Z.of_nat (Z.to_nat (currentIndex s))) in H by lia.
    rewrite itemAtIndex_insertAt in H by done.
    destruct (decide _) as [L|L]; [|lia].
    apply Hc. unfold currentItem.
    by replace (currentIndex s) with (Z.of_nat (Z.to_nat (currentIndex s))) by lia. }
  destruct (item li) as [it0|] eqn:Eli; [|by apply Hold].
  destruct (Z.eqb_spec (itemCount s) 0) as [E0|E0]; [|by apply Hold].
  assert (E : insertPosition s index = 0%nat) by (unfold itemCount in E0; lia).
  rewrite E in Hit.
  change 0 with (Z.of_nat 0) in Hit. rewrite itemAtIndex_insertAt in Hit by lia.
  cbn in Hit. unfold entered in Hit. rewrite Eli in Hit. cbn in Hit.
  rewrite Eli in Hit. by simplify_eq/=.
Qed.

Lemma currentShown_removeAt (index : Z) (s : QskStackBox) :
  animator s = None -> currentShown s -> currentShown (removeAt index s).
Proof.
  intros Ha Hc.
  destruct (Z_lt_dec index 0) as [Hn|Hn];
    [by rewrite removeAt_outside by (by left)|].
  destruct (Z_le_dec (itemCount s) index) as [Hx|Hx];
    [by rewrite removeAt_outside by (by right)|].
  rewrite removeAt_inside by lia.
  set (s' := withEngine (delete (Z.to_nat index) (engine s)) s).
  rewrite layoutItemRemoved_bookkeeping.
  change (currentIndex s') with (currentIndex s).
  destruct (Z.eqb_spec index (currentIndex s)) as [E|E].
  - assert (Hnone : currentShown (withCurrentIndex (-1) s')) by (by intros it Hit).
    match goal with |- context [if ?c then _ else _] => destruct c end; [|done].
    by apply currentShown_setCurrentIndex.
  - destruct (Z.ltb_spec index (currentIndex s)) as [L|L].
    + intros it Hit. unfold currentItem in Hit.
      cbn [currentIndex withCurrentIndex] in Hit.
      change (currentIndex s') with (currentIndex s) in Hit.
      rewrite (itemAtIndex_engine _ s') in Hit by reflexivity.
      replace (currentIndex s - 1)
        with (Z.of_nat (Z.to_nat (currentIndex s - 1))) in Hit by lia.
      unfold s' in Hit. rewrite itemAtIndex_delete in Hit.
      destruct (decide _) as [L'|L'] in Hit; [lia|].
      apply Hc. unfold currentItem. rewrite <- Hit. f_equal. lia.
    + intros it Hit. unfold currentItem in Hit.
      change (currentIndex s') with (currentIndex s) in Hit.
      pose proof (itemAtIndex_Some _ _ _ Hit) as Hr.
      replace (currentIndex s)
        with (Z.of_nat (Z.to_nat (currentIndex s))) in Hit by lia.
      unfold s' in Hit. rewrite itemAtIndex_delete in Hit.
      destruct (decide _) as [L'|L'] in Hit; [|lia].
      apply Hc. unfold currentItem. rewrite <- Hit. f_equal. lia.
Qed.

Lemma currentShown_perform (op : Operation) (s : QskStackBox) :
  animator s = None -> currentShown s -> synchronous op -> behindCurrent s op ->
  currentShown (perform op s).
Proof.
  intros Ha Hc Hs Hb.
  destruct op as [index|p|li index|index|a|w v p]; cbn [perform] in *.
  - by apply currentShown_setCurrentIndex.
  - by apply currentShown_setCurrentIndex.
  - by apply currentShown_insertLayoutItem.
  - by apply currentShown_removeAt.
  - simpl in Hs. subst a. unfold setAnimator. by rewrite Ha.
  - done.
Qed.

(** X2.  As long as no animator is attached and no child is inserted at
    or in front of the current index, every sequence of switches,
    insertions and removals keeps exactly the current child visible: a
    visible child sits at [currentIndex], and the child at [currentIndex]
    is visible. *)
Theorem X2_exactly_current_child_visible (ops : list Operation) (s : QskStackBox) :
  animator s = None -> oneVisible s -> currentShown s -> tame s ops ->
  oneVisible (performAll ops s) /\ currentShown (performAll ops s).
Proof.
  revert s. induction ops as [|op ops IH]; intros s Ha Hv Hc Ht; [done|].
  destruct Ht as (Hs & Hb & Ht).
  destruct (oneVisible_perform op s Ha Hv Hs Hb) as [Hv' Ha'].
  pose proof (currentShown_perform op s Ha Hc Hs Hb) as Hc'.
  by apply IH.
Qed.

Lemma X2_exactly_current_child_visible_witness :
  let ops := [OpInsert (page 1) (-1); OpInsert (page 2) (-1); OpInsert (page 3) 1;
              OpSetCurrentIndex 2; OpRemove 0; OpSetCurrentItem (Some 3%nat);
              OpRemove 0; OpSetCurrentIndex 5] in
  oneVisible (performAll ops offscreen) /\ currentShown (performAll ops offscreen).
Proof.
  cbv zeta. apply X2_exactly_current_child_visible.
  - reflexivity.
  - apply oneVisible_new.
  - intros it Hit. vm_compute in Hit. discriminate Hit.
  - vm_compute. repeat split; discriminate.
Defined.

(** ** Selecting a child by item *)

Lemma indexFrom_none (p : nat) (l : list QskLayoutItem) (i : Z) :
  (forall li, li ∈ l -> holds p li = false) -> indexFrom p l i = -1.
Proof.
  revert i. induction l as [|li l IH]; intros i H; [done|].
  cbn [indexFrom]. rewrite H by (apply elem_of_cons; by left).
  apply IH. intros li' Hli'. apply H. apply elem_of_cons. by right.
Qed.

Lemma indexFrom_found (p : nat) (l : list QskLayoutItem) (i : Z) :
  (exists li, li ∈ l /\ holds p li = true) ->
  exists k li, indexFrom p l i = i + Z.of_nat k /\ l !! k = Some li /\ holds p li = true.
Proof.
  revert i. induction l as [|li l IH]; intros i (li0 & Hin & Hh).
  - by apply elem_of_nil in Hin.
  - cbn [indexFrom]. destruct (holds p li) eqn:E.
    + exists 0%nat, li. split; [lia|]. by split.
    + apply elem_of_cons in Hin as [->|Hin]; [congruence|].
      destruct (IH (i + 1)) as (k & li' & Hk & Hl & Hh'); [by exists li0|].
      exists (S k), li'. split; [lia|]. by split.
Qed.

Lemma ident_setVisibleAt (i : Z) (b : bool) (s : QskStackBox) (j : Z) :
  ident <$> itemAtIndex (setVisibleAt i b s) j = ident <$> itemAtIndex s j.
Proof.
  rewrite itemAtIndex_setVisibleAt.
  destruct (decide (i = j)); [|done]. by destruct (itemAtIndex s j).
Qed.

Lemma ident_setCurrentIndex (index : Z) (s : QskStackBox) (j : Z) :
  ident <$> itemAtIndex (setCurrentIndex index s) j = ident <$> itemAtIndex s j.
Proof.
  rewrite (itemAtIndex_withEngine _ _ s _ (engine_setCurrentIndex index s)).
  destruct (_ || _).
  - reflexivity.
  - rewrite (itemAtIndex_engine _ (setVisibleAt (clampIndex s index) true
                                     (setVisibleAt (currentIndex s) false s)))
      by reflexivity.
    by rewrite !ident_setVisibleAt.
Qed.

(** X7.  [setCurrentItem( item )] followed by [currentItem()] gives the
    item back when it is a child of the box; for an item that is not a
    child, and for the null pointer, it selects nothing
    ([currentIndex = -1]). *)
Theorem X7_setCurrentItem_selects_child (s : QskStackBox) (p : nat) :
  (isChild p s -> ident <$> currentItem (setCurrentItem (Some p) s) = Some p) /\
  (~ isChild p s -> currentIndex (setCurrentItem (Some p) s) = -1) /\
  currentIndex (setCurrentItem None s) = -1.
Proof.
  unfold setCurrentItem, currentItem. rewrite !currentIndex_setCurrentIndex.
  cbn [indexOf]. split; [|split].
  - intros Hc. destruct (indexFrom_found p (engine s) 0 Hc) as (k & li & Hk & Hl & Hh).
    rewrite Hk, Z.add_0_l.
    rewrite clampIndex_in
      by (apply lookup_lt_Some in Hl; unfold itemCount; lia).
    rewrite ident_setCurrentIndex, itemAtIndex_nat, Hl. cbn.
    unfold holds in Hh. destruct (item li) as [it|]; [|done].
    cbn. f_equal. by apply Nat.eqb_eq.
  - intros Hn. rewrite indexFrom_none; [by apply clampIndex_out; left|].
    intros li Hli. destruct (holds p li) eqn:E; [|done].
    exfalso. apply Hn. by exists li.
  - by apply clampIndex_out; left.
Qed.

Lemma X7_setCurrentItem_selects_child_witness :
  ident <$> currentItem (setCurrentItem (Some 2%nat) threePages) = Some 2%nat /\
  currentIndex (setCurrentItem (Some 9%nat) threePages) = -1.
Proof.
  destruct (X7_setCurrentItem_selects_child threePages 2) as (H1 & _ & _).
  destruct (X7_setCurrentItem_selects_child threePages 9) as (_ & H2 & _).
  split.
  - apply H1. exists (entered false (page 2)). split; [|reflexivity].
    apply (list_elem_of_lookup_2 _ 1%nat). vm_compute. reflexivity.
  - apply H2. intros (li & Hin & Hh). vm_compute in Hin.
    repeat (apply elem_of_cons in Hin as [->|Hin]; [vm_compute in Hh; discriminate Hh|]).
    by apply elem_of_nil in Hin.
Defined.

(** ** Attaching an animator *)

(** X8.  [setAnimator] touches nothing but the animator slot: the index,
    the children, the signals and the geometry requests stay as they are.
    With the animator that is already attached it does nothing; any other
    animator is attached after it received one [stop()], its last call,
    so a newly attached animator is never running.  After
    [setAnimator( nullptr )] every switch is the synchronous one, whatever
    the scene: it asks for no geometry update and shows and hides the
    children itself. *)
Theorem X8_setAnimator_only_swaps_animator (s : QskStackBox)
    (a : option QskStackBoxAnimator) (index j : Z) :
  let s' := setAnimator a s in
  (engine s' = engine s /\ currentIndex s' = currentIndex s /\
   currentIndexChanged s' = currentIndexChanged s /\ adjusted s' = adjusted s) /\
  animator s' = (if sameAnimator (animator s) a then animator s
                 else received Stop <$> a) /\
  let t := setCurrentIndex index (setAnimator None s) in
  animator t = None /\ adjusted t = adjusted s /\
  itemAtIndex t j =
    if clampIndex s index =? currentIndex s then itemAtIndex s j
    else if decide (clampIndex s index = j) then setVisible true <$> itemAtIndex s j
    else if decide (currentIndex s = j) then setVisible false <$> itemAtIndex s j
    else itemAtIndex s j.
Proof.
  cbv zeta.
  assert (Hframe : forall a', engine (setAnimator a' s) = engine s /\
            currentIndex (setAnimator a' s) = currentIndex s /\
            currentIndexChanged (setAnimator a' s) = currentIndexChanged s /\
            adjusted (setAnimator a' s) = adjusted s).
  { intros a'. unfold setAnimator. by destruct (sameAnimator (animator s) a'). }
  split; [apply Hframe|]. split.
  { unfold setAnimator. by destruct (sameAnimator (animator s) a). }
  destruct (Hframe None) as (He & Hc & _ & Hadj).
  assert (Hnone : animator (setAnimator None s) = None).
  { unfold setAnimator. by destruct (animator s) eqn:E. }
  assert (Hsync : animated (setAnimator None s) = false) by (by apply animated_None).
  assert (Hclamp : clampIndex (setAnimator None s) index = clampIndex s index).
  { unfold clampIndex, itemCount. by rewrite He. }
  destruct (animator_calls_setCurrentIndex (setAnimator None s) index) as [Ha Hq].
  split; [by rewrite Ha, Hnone|]. split.
  - rewrite Hq, Hsync, andb_false_r, app_nil_r. done.
  - rewrite itemAtIndex_setCurrentIndex_synchronous by done.
    by rewrite Hclamp, Hc, (itemAtIndex_engine _ s j He).
Qed.

(** ** Removal *)

Lemma layoutItemRemoved_index_and_signals (s : QskStackBox) (index : Z) :
  0 <= index ->
  currentIndex (layoutItemRemoved index s) =
    (if index =? currentIndex s then (if index <? itemCount s then index else -1)
     else if index <? currentIndex s then currentIndex s - 1
     else currentIndex s) /\
  currentIndexChanged (layoutItemRemoved index s) =
    (if (index =? currentIndex s) && (index <? itemCount s)
     then currentIndexChanged s ++ [index]
     else currentIndexChanged s).
Proof.
  intros H0. split.
  - rewrite layoutItemRemoved_bookkeeping.
    destruct (Z.eqb_spec index (currentIndex s)) as [E|E].
    + rewrite <- E.
      destruct (Z.eqb_spec index (itemCount s)) as [C|C],
               (Z.ltb_spec index (itemCount s)) as [L|L]; try lia.
      * destruct (Z.geb_spec (index - 1) 0); [|done].
        rewrite currentIndex_setCurrentIndex. apply clampIndex_out.
        right. unfold itemCount in *. cbn. lia.
      * destruct (Z.geb_spec index 0); [|lia].
        rewrite currentIndex_setCurrentIndex. apply clampIndex_in.
        unfold itemCount in *. cbn. lia.
      * destruct (Z.geb_spec index 0); [|lia].
        rewrite currentIndex_setCurrentIndex. apply clampIndex_out.
        right. unfold itemCount in *. cbn. lia.
    + by destruct (Z.ltb_spec index (currentIndex s)).
  - rewrite layoutItemRemoved_bookkeeping.
    destruct (Z.eqb_spec index (currentIndex s)) as [E|E]; cbn [andb].
    + rewrite <- E.
      assert (Hc : forall c, clampIndex (withCurrentIndex c s) index
                             = if index <? itemCount s then index else -1).
      { intros c. destruct (Z.ltb_spec index (itemCount s)).
        - apply clampIndex_in. unfold itemCount in *. cbn. lia.
        - apply clampIndex_out. right. unfold itemCount in *. cbn. lia. }
      destruct (Z.eqb_spec index (itemCount s)) as [C|C].
      * destruct (Z.ltb_spec index (itemCount s)) as [L|L]; [lia|].
        destruct (Z.geb_spec (index - 1) 0); [|done].
        rewrite signals_setCurrentIndex, Hc.
        destruct (Z.ltb_spec index (itemCount s)); [lia|]. done.
      * destruct (Z.geb_spec index 0); [|lia].
        rewrite signals_setCurrentIndex, Hc.
        destruct (Z.ltb_spec index (itemCount s)) as [L|L]; cbn.
        -- destruct (Z.eqb_spec index (-1)); [lia|done].
        -- done.
    + by destruct (Z.ltb_spec index (currentIndex s)).
Qed.

(** X9.  What [layoutItemRemoved( index )] does to the index and to the
    signals, for an index that is not negative ([itemCount] is the count
    after the removal).  If the current child went: the index stays at
    [index], with one signal carrying it, when a child sits there now, and
    becomes [-1] without a signal otherwise.  If a child in front of the
    current one went: the index is one less, without a signal.  If a child
    behind it went: nothing changes.  The hook emits at most one signal
    and keeps the number of children. *)
Theorem X9_layoutItemRemoved_bookkeeping (s : QskStackBox) (index : Z) :
  0 <= index ->
  let s' := layoutItemRemoved index s in
  currentIndex s' =
    (if index =? currentIndex s then (if index <? itemCount s then index else -1)
     else if index <? currentIndex s then currentIndex s - 1
     else currentIndex s) /\
  currentIndexChanged s' =
    (if (index =? currentIndex s) && (index <? itemCount s)
     then currentIndexChanged s ++ [index]
     else currentIndexChanged s) /\
  itemCount s' = itemCount s.
Proof.
  intros H0. cbv zeta. rewrite itemCount_layoutItemRemoved.
  destruct (layoutItemRemoved_index_and_signals s index H0) as [H1 H2].
  by repeat split.
Qed.

Lemma X9_layoutItemRemoved_bookkeeping_witness :
  let s := withEngine (delete 1%nat (engine threePages)) (setCurrentIndex 1 threePages) in
  let s' := layoutItemRemoved 1 s in
  currentIndex s' = 1 /\
  currentIndexChanged s' = currentIndexChanged s ++ [1] /\
  itemCount s' = 2.
Proof.
  cbv zeta.
  destruct (X9_layoutItemRemoved_bookkeeping
              (withEngine (delete 1%nat (engine threePages)) (setCurrentIndex 1 threePages)) 1)
    as (H1 & H2 & H3); [lia|].
  split; [|split].
  - rewrite H1. vm_compute. reflexivity.
  - rewrite H2. vm_compute. reflexivity.
  - rewrite H3. vm_compute. reflexivity.
Defined.




(** ** Insertion followed by removal *)

Lemma delete_insertAt {A : Type} (pos : nat) (x : A) (l : list A) :
  (pos <= length l)%nat -> delete pos (insertAt pos x l) = l.
Proof.
  intros H. unfold insertAt.
  replace pos with (length (take pos l)) at 1 by (rewrite length_take; lia).
  rewrite delete_middle. apply take_drop.
Qed.

Lemma insertLayoutItem_further (li : QskLayoutItem) (index : Z) (s : QskStackBox) :
  0 < itemCount s ->
  insertLayoutItem li index s =
    withEngine (insertAt (insertPosition s index) (entered false li) (engine s)) s.
Proof.
  intros Hc. unfold insertLayoutItem, layoutItemInserted, entered.
  cbn [engine withEngine].
  pose proof (insertPosition_le s index) as Hpos.
  rewrite lookup_insertAt_eq by done. cbn [mbind option_bind].
  destruct (item li) as [it|]; [|done].
  unfold itemCount at 1. cbn [engine withEngine].
  rewrite length_alter, length_insertAt, first_entry. fold (itemCount s).
  destruct (Z.eqb_spec (itemCount s) 0) as [E|E]; [lia|].
  destruct s as [e i a w v p adj sig]. cbn.
  by rewrite list_alter_alter_eq, alter_insertAt.
Qed.

(** X11.  Inserting a child behind the current one into a box that has
    children, and removing it again, gives the box back as it was: same
    children with the same visibility, same index, no signal. *)
Theorem X11_insert_then_remove_behind_current (li : QskLayoutItem) (index : Z)
    (s : QskStackBox) :
  0 < itemCount s ->
  currentIndex s < Z.of_nat (insertPosition s index) ->
  removeAt (Z.of_nat (insertPosition s index)) (insertLayoutItem li index s) = s.
Proof.
  intros Hc Hb. pose proof (insertPosition_le s index) as Hpos.
  rewrite insertLayoutItem_further by done.
  rewrite removeAt_inside
    by (unfold itemCount; cbn [engine withEngine]; rewrite length_insertAt; lia).
  cbn [engine withEngine]. rewrite Nat2Z.id, delete_insertAt by done.
  rewrite layoutItemRemoved_bookkeeping. cbn [currentIndex withEngine].
  destruct (Z.eqb_spec (Z.of_nat (insertPosition s index)) (currentIndex s)); [lia|].
  destruct (Z.ltb_spec (Z.of_nat (insertPosition s index)) (currentIndex s)); [lia|].
  by destruct s.
Qed.

Lemma X11_insert_then_remove_behind_current_witness :
  removeAt (Z.of_nat (insertPosition threePages (-1)))
    (insertLayoutItem (page 4) (-1) threePages) = threePages.
Proof.
  apply X11_insert_then_remove_behind_current; vm_compute; reflexivity.
Defined.

(** ** Sizes *)

Lemma elem_of_map_filter {A B : Type} (f : A -> B) (p : A -> bool) (l : list A) (x : A) :
  x ∈ l -> p x = true -> f x ∈ map f (List.filter p l).
Proof.
  intros Hx Hp. apply list_elem_of_In, in_map, filter_In.
  split; [by apply list_elem_of_In|done].
Qed.

(** X12.  The preferred size of a box accommodates every page: it is at
    least [-1] on both axes; it is at least the unconstrained preferred
    size of every child without a dynamic constraint; its width is at
    least the width every horizontally constrained child asks for at the
    first-pass height, and its height at least the height every
    vertically constrained child asks for at the returned width. *)
Theorem X12_size_hint_accommodates_every_page (s : QskStackBox) (li : QskLayoutItem) :
  li ∈ engine s ->
  let r := layoutItemsSizeHintRun s in
  ((-1 <= width (returned r))%Q /\ (-1 <= height (returned r))%Q) /\
  (hasDynamicConstraint li = false ->
   (width (preferred (mkSize (-1) (-1)) li) <= width (returned r))%Q /\
   (height (preferred (mkSize (-1) (-1)) li) <= height (returned r))%Q) /\
  (constrainedAlong Horizontal li = true ->
   (width (preferred (mkSize (-1) (height (firstPass r))) li) <= width (returned r))%Q) /\
  (constrainedAlong Vertical li = true ->
   (height (preferred (mkSize (width (returned r)) (-1)) li) <= height (returned r))%Q).
Proof.
  intros Hli. cbv zeta. rewrite layoutItemsSizeHintRun_loops.
  cbn [firstPass returned width height].
  set (l := engine s) in *.
  destruct (runningMax_ge_spec (-1)
              (map (fun li => width (preferred (mkSize (-1) (-1)) li))
                 (List.filter unconstrained l))) as (_ & Hw1 & Hwu).
  destruct (runningMax_ge_spec (-1)
              (map (fun li => height (preferred (mkSize (-1) (-1)) li))
                 (List.filter unconstrained l))) as (_ & Hh1 & Hhu).
  fold (firstWidth l) in Hw1, Hwu. fold (firstHeight l) in Hh1, Hhu.
  destruct (runningMax_gt_spec (firstWidth l)
              (map (fun li => width (preferred (mkSize (-1) (firstHeight l)) li))
                 (List.filter (constrainedAlong Horizontal) l))) as (_ & Hw2 & Hwc).
  fold (finalWidth l) in Hw2, Hwc.
  destruct (runningMax_gt_spec (firstHeight l)
              (map (fun li => height (preferred (mkSize (finalWidth l) (-1)) li))
                 (List.filter (constrainedAlong Vertical) l))) as (_ & Hh2 & Hhc).
  fold (finalHeight l) in Hh2, Hhc.
  split; [split; lra|]. split; [|split].
  - intros Hplain.
    assert (Hu : unconstrained li = true) by (unfold unconstrained; by rewrite Hplain).
    pose proof (Hwu _ (elem_of_map_filter
                         (fun li => width (preferred (mkSize (-1) (-1)) li))
                         unconstrained l li Hli Hu)) as Hw.
    pose proof (Hhu _ (elem_of_map_filter
                         (fun li => height (preferred (mkSize (-1) (-1)) li))
                         unconstrained l li Hli Hu)) as Hh.
    cbv beta in Hw, Hh. split; lra.
  - intros Hc.
    apply (Hwc _ (elem_of_map_filter
                    (fun li => width (preferred (mkSize (-1) (firstHeight l)) li))
                    (constrainedAlong Horizontal) l li Hli Hc)).
  - intros Hc.
    apply (Hhc _ (elem_of_map_filter
                    (fun li => height (preferred (mkSize (finalWidth l) (-1)) li))
                    (constrainedAlong Vertical) l li Hli Hc)).
Qed.

Lemma X12_size_hint_accommodates_every_page_witness :
  let r := layoutItemsSizeHintRun mixed in
  let li := entered true (sized 1 10 10) in
  ((-1 <= width (returned r))%Q /\ (-1 <= height (returned r))%Q) /\
  (width (preferred (mkSize (-1) (-1)) li) <= width (returned r))%Q /\
  (height (preferred (mkSize (-1) (-1)) li) <= height (returned r))%Q.
Proof.
  cbv zeta.
  destruct (X12_size_hint_accommodates_every_page mixed (entered true (sized 1 10 10)))
    as (H1 & H2 & _).
  - apply (list_elem_of_lookup_2 _ 0%nat). vm_compute. reflexivity.
  - split; [exact H1|]. apply H2. reflexivity.
Defined.

Lemma constrainedValue_isMaxFrom (type : ConstraintType) (s : QskStackBox) (x : Q) :
  isMaxFrom (qskConstrainedValue type s x) (childMetrics type s x).
Proof.
  rewrite qskConstrainedValue_runningMax.
  destruct (runningMax_gt_spec (-1) (childMetrics type s x)) as (Hin & Hlo & Hub).
  by repeat split.
Qed.

Lemma isMaxFrom_mono (r r' : Q) (vals vals' : list Q) :
  isMaxFrom r vals -> isMaxFrom r' vals' ->
  (forall v, v ∈ vals -> v ∈ vals') -> (r <= r')%Q.
Proof.
  intros ([->|Hin] & _ & _) (_ & Hlo' & Hub') Hsub; [done|].
  by apply Hub', Hsub.
Qed.

Lemma elem_of_insertAt {A : Type} (pos : nat) (x y : A) (l : list A) :
  y ∈ l -> y ∈ insertAt pos x l.
Proof.
  intros Hy. rewrite <- (take_drop pos l) in Hy.
  unfold insertAt. apply elem_of_app in Hy as [Hy|Hy]; apply elem_of_app.
  - by left.
  - right. apply elem_of_cons. by right.
Qed.

Lemma childMetrics_engine (type : ConstraintType) (s : QskStackBox) (x v : Q) :
  v ∈ childMetrics type s x <->
  exists li it, li ∈ engine s /\ item li = Some it /\ v = childMetric type it x.
Proof.
  unfold childMetrics, children. rewrite list_elem_of_In, in_map_iff. split.
  - intros (it & <- & Hit). apply list_elem_of_In, list_elem_of_omap in Hit
      as (li & Hli & Hitem). by exists li, it.
  - intros (li & it & Hli & Hitem & ->). exists it. split; [done|].
    apply list_elem_of_In, list_elem_of_omap. by exists li.
Qed.

Lemma childMetrics_layoutItemRemoved (type : ConstraintType) (index : Z)
    (s : QskStackBox) (x : Q) :
  childMetrics type (layoutItemRemoved index s) x = childMetrics type s x.
Proof.
  rewrite layoutItemRemoved_bookkeeping.
  repeat match goal with |- context [if ?c then _ else _] => destruct c end;
    try reflexivity.
  by rewrite childMetrics_setCurrentIndex.
Qed.

(** X13.  Adding a page never lowers, and removing a page never raises,
    what the box answers to [heightForWidth] and [widthForHeight]. *)
Theorem X13_constrained_metric_monotone (s : QskStackBox) (li : QskLayoutItem)
    (index : Z) (x : Q) :
  ((heightForWidth s x <= heightForWidth (insertLayoutItem li index s) x)%Q /\
   (widthForHeight s x <= widthForHeight (insertLayoutItem li index s) x)%Q) /\
  ((heightForWidth (removeAt index s) x <= heightForWidth s x)%Q /\
   (widthForHeight (removeAt index s) x <= widthForHeight s x)%Q).
Proof.
  assert (Hins : forall type v, v ∈ childMetrics type s x ->
            v ∈ childMetrics type (insertLayoutItem li index s) x).
  { intros type v Hv. apply childMetrics_engine in Hv as (li0 & it & Hli & Hit & ->).
    apply childMetrics_engine. exists li0, it.
    rewrite engine_insertLayoutItem. split; [by apply elem_of_insertAt|done]. }
  assert (Hrem : forall type v, v ∈ childMetrics type (removeAt index s) x ->
            v ∈ childMetrics type s x).
  { intros type v. unfold removeAt. destruct (layoutItemAt s index); [|done].
    rewrite childMetrics_layoutItemRemoved. intros Hv.
    apply childMetrics_engine in Hv as (li0 & it & Hli & Hit & ->).
    apply childMetrics_engine. exists li0, it.
    split; [|done]. by apply list_elem_of_delete_inv in Hli. }
  unfold heightForWidth, widthForHeight, constrainedMetric.
  split; split;
    eapply isMaxFrom_mono;
    try apply constrainedValue_isMaxFrom; auto.
Qed.

(** ** The empty box *)

(** X14.  A box without children, whatever it went through before, has
    nothing selected: [currentIndex] is [-1], [currentItem] is null, every
    [setCurrentIndex] and [setCurrentItem] leaves it as it is (no signal,
    no call to the animator), its preferred size is [(-1, -1)] and its
    constrained metrics are [-1]. *)
Theorem X14_empty_box (s : QskStackBox) :
  reachable s -> itemCount s = 0 ->
  (currentIndex s = -1 /\ currentItem s = None) /\
  (forall index, setCurrentIndex index s = s) /\
  (forall p, setCurrentItem p s = s) /\
  layoutItemsSizeHint s = mkSize (-1) (-1) /\
  (forall x, heightForWidth s x = (-1)%Q /\ widthForHeight s x = (-1)%Q).
Proof.
  intros Hs Hc. apply reachable_indexInRange in Hs as [Hlo Hhi].
  assert (Hcur : currentIndex s = -1) by lia.
  assert (He : engine s = []).
  { unfold itemCount in Hc. destruct (engine s); [done|]. cbn in Hc. lia. }
  assert (Hset : forall index, setCurrentIndex index s = s).
  { intros index. unfold setCurrentIndex.
    rewrite clampIndex_out, Hcur; [done|].
    destruct (Z_lt_dec index 0); [by left|right; lia]. }
  split; [split; [done|]|split; [done|split; [|split]]].
  - unfold currentItem. by rewrite Hcur.
  - intros p. apply Hset.
  - rewrite layoutItemsSizeHint_loops, He. reflexivity.
  - intros x. unfold heightForWidth, widthForHeight, constrainedMetric.
    rewrite !qskConstrainedValue_runningMax. unfold childMetrics, children.
    by rewrite He.
Qed.

Lemma X14_empty_box_witness :
  let t := performAll [OpInsert (page 1) (-1); OpRemove 0; OpRemove 0] onscreen in
  (currentIndex t = -1 /\ currentItem t = None) /\
  (forall index, setCurrentIndex index t = t) /\
  (forall p, setCurrentItem p t = t) /\
  layoutItemsSizeHint t = mkSize (-1) (-1) /\
  (forall x, heightForWidth t x = (-1)%Q /\ widthForHeight t x = (-1)%Q).
Proof.
  cbv zeta.
  assert (Hr : reachable (performAll [OpInsert (page 1) (-1); OpRemove 0; OpRemove 0]
                            onscreen)).
  { apply reachable_performAll. unfold onscreen.
    apply reachable_performAll. constructor. }
  assert (Hc : itemCount (performAll [OpInsert (page 1) (-1); OpRemove 0; OpRemove 0]
                            onscreen) = 0)
    by (vm_compute; reflexivity).
  exact (X14_empty_box _ Hr Hc).
Defined.

(** X15.  In a box whose entries all hold an item, [currentItem()] is
    null exactly when [currentIndex()] is [-1]. *)
Theorem X15_currentItem_null_iff_no_index (s : QskStackBox) :
  reachable s -> allItems s ->
  (currentItem s = None <-> currentIndex s = -1).
Proof.
  intros Hs Hall. apply reachable_indexInRange in Hs as [Hlo Hhi].
  unfold currentItem. split.
  - intros Hnone. destruct (Z.eq_dec (currentIndex s) (-1)) as [|Hne]; [done|].
    exfalso. unfold itemAtIndex, layoutItemAt in Hnone.
    destruct (Z.ltb_spec (currentIndex s) 0); [lia|].
    destruct (lookup_lt_is_Some_2 (engine s) (Z.to_nat (currentIndex s)))
      as [li Hli]; [unfold itemCount in Hhi; lia|].
    rewrite Hli in Hnone. cbn in Hnone.
    destruct (Hall li (list_elem_of_lookup_2 _ _ _ Hli)) as [it Hit].
    congruence.
  - intros ->. reflexivity.
Qed.

Lemma X15_currentItem_null_iff_no_index_witness :
  currentItem allHidden = None <-> currentIndex allHidden = -1.
Proof.
  apply X15_currentItem_null_iff_no_index.
  - apply reachable_performAll. constructor.
  - unfold allItems. apply Forall_forall. vm_compute. repeat constructor.
    eexists. reflexivity.
Defined.

(** ** Entries keep their size when hidden *)

Lemma elem_of_alter {A : Type} (f : A -> A) (k : nat) (l : list A) (x : A) :
  x ∈ alter f k l -> x ∈ l \/ exists y, y ∈ l /\ x = f y.
Proof.
  revert k. induction l as [|a l IH]; intros k Hx; [by left|].
  destruct k as [|k]; cbn [alter list_alter] in Hx;
    apply elem_of_cons in Hx as [->|Hx].
  - right. exists a. split; [apply elem_of_cons; by left|done].
  - left. apply elem_of_cons. by right.
  - left. apply elem_of_cons. by left.
  - destruct (IH k Hx) as [H|(y & Hy & ->)].
    + left. apply elem_of_cons. by right.
    + right. exists y. split; [apply elem_of_cons; by right|done].
Qed.

Lemma allRetained_setVisibleAt (i : Z) (b : bool) (s : QskStackBox) :
  allRetained s -> allRetained (setVisibleAt i b s).
Proof.
  intros H li Hli Hit. unfold setVisibleAt in Hli.
  destruct (i <? 0); [by apply H|]. cbn [engine withEngine] in Hli.
  apply elem_of_alter in Hli as [Hli|(li0 & Hli0 & ->)]; [by apply H|].
  cbn in *. apply H; [done|]. by destruct (item li0).
Qed.

Lemma allRetained_engine (s t : QskStackBox) :
  engine s = engine t -> allRetained s -> allRetained t.
Proof. intros E H li Hli. apply H. by rewrite E. Qed.

Lemma allRetained_setCurrentIndex (index : Z) (s : QskStackBox) :
  allRetained s -> allRetained (setCurrentIndex index s).
Proof.
  intros H. pose proof (engine_setCurrentIndex index s) as E.
  destruct (_ || _).
  - by apply (allRetained_engine s).
  - eapply allRetained_engine; [symmetry; exact E|].
    by do 2 apply allRetained_setVisibleAt.
Qed.

Lemma allRetained_perform (op : Operation) (s : QskStackBox) :
  allRetained s -> allRetained (perform op s).
Proof.
  intros H. destruct op as [index|p|li index|index|a|w v p]; cbn [perform].
  - by apply allRetained_setCurrentIndex.
  - by apply allRetained_setCurrentIndex.
  - intros li' Hli' Hit. rewrite engine_insertLayoutItem in Hli'.
    unfold insertAt in Hli'. apply elem_of_app in Hli' as [Hli'|Hli'].
    + apply H; [|done]. apply elem_of_take in Hli' as (j & Hj & _).
      by apply list_elem_of_lookup_2 in Hj.
    + apply elem_of_cons in Hli' as [->|Hli'].
      * unfold entered in *. destruct (item li) eqn:E; [done|].
        rewrite E in Hit. by destruct Hit.
      * apply H; [|done]. apply list_elem_of_lookup_1 in Hli' as [j Hj].
        rewrite lookup_drop in Hj. by apply list_elem_of_lookup_2 in Hj.
  - unfold removeAt. destruct (layoutItemAt s index); [|done].
    rewrite layoutItemRemoved_bookkeeping.
    assert (Hd : allRetained (withEngine (delete (Z.to_nat index) (engine s)) s)).
    { intros li Hli. apply H. by apply list_elem_of_delete_inv in Hli. }
    repeat match goal with |- context [if ?c then _ else _] => destruct c end;
      try done.
    by apply allRetained_setCurrentIndex.
  - unfold setAnimator. by destruct (sameAnimator (animator s) a).
  - done.
Qed.

(** X16.  Every child of a box keeps its layout size when it is hidden:
    [layoutItemInserted] sets the flag on each entry that holds an item,
    and no operation clears it. *)
Theorem X16_children_retain_size_when_hidden (s : QskStackBox) :
  reachable s -> allRetained s.
Proof.
  induction 1 as [w v p|op s _ IH].
  - intros li Hli. by apply elem_of_nil in Hli.
  - by apply allRetained_perform.
Qed.

Lemma X16_children_retain_size_when_hidden_witness : allRetained threePages.
Proof.
  apply X16_children_retain_size_when_hidden.
  apply reachable_performAll. constructor.
Defined.

(** ** Sizes do not depend on the selection *)

Lemma childMetrics_same_engine (type : ConstraintType) (s t : QskStackBox) (x : Q) :
  engine s = engine t -> childMetrics type s x = childMetrics type t x.
Proof. intros E. unfold childMetrics, children. by rewrite E. Qed.

(** X17.  Switching the page, by index or by item, changing the animator
    or the scene changes neither the preferred size of the box nor its
    constrained metrics, also when children have dynamic constraints. *)
Theorem X17_sizes_independent_of_selection (op : Operation) (s : QskStackBox) (x : Q) :
  keepsChildren op = true ->
  layoutItemsSizeHint (perform op s) = layoutItemsSizeHint s /\
  heightForWidth (perform op s) x = heightForWidth s x /\
  widthForHeight (perform op s) x = widthForHeight s x.
Proof.
  intros Hk. unfold heightForWidth, widthForHeight, constrainedMetric.
  rewrite !qskConstrainedValue_runningMax.
  destruct op as [index|p|li index|index|a|w v p]; try discriminate Hk;
    cbn [perform].
  - by rewrite layoutItemsSizeHint_setCurrentIndex, !childMetrics_setCurrentIndex.
  - unfold setCurrentItem.
    by rewrite layoutItemsSizeHint_setCurrentIndex, !childMetrics_setCurrentIndex.
  - assert (E : engine (setAnimator a s) = engine s)
      by (unfold setAnimator; by destruct (sameAnimator (animator s) a)).
    by rewrite !layoutItemsSizeHint_loops, E,
      !(childMetrics_same_engine _ _ s _ E).
  - done.
Qed.

Lemma X17_sizes_independent_of_selection_witness :
  layoutItemsSizeHint (perform (OpSetCurrentIndex 2) mixed) = layoutItemsSizeHint mixed /\
  heightForWidth (perform (OpSetCurrentIndex 2) mixed) 100 = heightForWidth mixed 100 /\
  widthForHeight (perform (OpSetCurrentIndex 2) mixed) 100 = widthForHeight mixed 100.
Proof.
  apply (X17_sizes_independent_of_selection (OpSetCurrentIndex 2) mixed 100).
  reflexivity.
Defined.

(** ** Insertion leaves the other children alone *)

(** X18.  Inserting a child into a box that has children changes neither
    [currentIndex] nor the signals nor any child that was there: the
    children in front of the insertion point stay where they are, those at
    or behind it move one index up, all as visible as before. *)
Theorem X18_insertion_shifts_children (li : QskLayoutItem) (index : Z)
    (s : QskStackBox) (j : nat) :
  0 < itemCount s ->
  let pos := insertPosition s index in
  let s' := insertLayoutItem li index s in
  currentIndex s' = currentIndex s /\
  currentIndexChanged s' = currentIndexChanged s /\
  animator s' = animator s /\
  itemAtIndex s' (Z.of_nat (if decide (j < pos)%nat then j else S j))
    = itemAtIndex s (Z.of_nat j).
Proof.
  intros Hc. cbv zeta. pose proof (insertPosition_le s index) as Hp.
  rewrite insertLayoutItem_further by done.
  cbn [currentIndex currentIndexChanged animator withEngine].
  split; [done|]. split; [done|]. split; [done|].
  rewrite itemAtIndex_insertAt by done.
  destruct (decide (j < insertPosition s index)%nat) as [L|L].
  - by destruct (decide (j < insertPosition s index)%nat).
  - destruct (decide (S j < insertPosition s index)%nat); [lia|].
    destruct (decide (S j = insertPosition s index)); [lia|].
    do 2 f_equal. lia.
Qed.

Lemma X18_insertion_shifts_children_witness :
  let s' := insertLayoutItem (page 4) 0 threePages in
  currentIndex s' = currentIndex threePages /\
  currentIndexChanged s' = currentIndexChanged threePages /\
  animator s' = animator threePages /\
  itemAtIndex s' (Z.of_nat (if decide (2 < insertPosition threePages 0)%nat
                            then 2 else 3))
    = itemAtIndex threePages (Z.of_nat 2).
Proof.
  apply (X18_insertion_shifts_children (page 4) 0 threePages 2).
  vm_compute. reflexivity.
Defined.

(** ** The animator is never started while running *)

Lemma startsWhenIdle_app_Stop (cs rest : list AnimatorCall) (running : bool) :
  startsWhenIdle running (cs ++ Stop :: rest)
  = startsWhenIdle running cs && startsWhenIdle false rest.
Proof.
  revert running. induction cs as [|c cs IH]; intros running; [done|].
  destruct c; cbn [app startsWhenIdle]; rewrite IH; [done..|].
  by rewrite andb_assoc.
Qed.

Lemma startsWhenIdle_switchCalls (s : QskStackBox) (index : Z) (cs : list AnimatorCall) :
  startsWhenIdle false cs = true ->
  startsWhenIdle false (cs ++ switchCalls s index) = true.
Proof.
  intros H. unfold switchCalls.
  destruct (clampIndex s index =? currentIndex s); [by rewrite app_nil_r|].
  destruct (animated s); rewrite startsWhenIdle_app_Stop, H; reflexivity.
Qed.

Lemma animatorSound_setCurrentIndex (index : Z) (s : QskStackBox) :
  animatorSound s -> animatorSound (setCurrentIndex index s).
Proof.
  unfold animatorSound.
  destruct (animator_calls_setCurrentIndex s index) as [-> _].
  destruct (animator s) as [a|]; [|done]. cbn.
  apply startsWhenIdle_switchCalls.
Qed.

Lemma animatorSound_perform (op : Operation) (s : QskStackBox) :
  animatorSound s -> attachesSound op -> animatorSound (perform op s).
Proof.
  intros H Ho. destruct op as [index|p|li index|index|a|w v p]; cbn [perform].
  - by apply animatorSound_setCurrentIndex.
  - by apply animatorSound_setCurrentIndex.
  - unfold animatorSound. by rewrite animator_insertLayoutItem.
  - unfold removeAt. destruct (layoutItemAt s index); [|done].
    rewrite layoutItemRemoved_bookkeeping.
    repeat match goal with |- context [if ?c then _ else _] => destruct c end;
      try done.
    by apply animatorSound_setCurrentIndex.
  - unfold setAnimator. destruct (sameAnimator (animator s) a); [done|].
    unfold animatorSound. cbn. destruct a as [a|]; [|done]. cbn in *.
    by rewrite startsWhenIdle_app_Stop, Ho.
  - done.
Qed.

(** X19.  The box never starts an animator that is running: as long as
    the animators handed to [setAnimator] were not started twice in a row
    before, the attached animator never receives two [start()] without a
    [stop()] in between, whatever the sequence of switches, insertions,
    removals and animator changes. *)
Theorem X19_animator_never_started_twice (ops : list Operation) (s : QskStackBox) :
  animatorSound s -> Forall attachesSound ops ->
  animatorSound (performAll ops s).
Proof.
  revert s. induction ops as [|op ops IH]; intros s H Ho; [done|].
  apply Forall_cons in Ho as [Ho Hos].
  apply IH; [|done]. by apply animatorSound_perform.
Qed.

Lemma X19_animator_never_started_twice_witness :
  animatorSound
    (performAll [OpSetAnimator (Some (mkAnimator 1 [])); OpInsert (page 1) (-1);
                 OpInsert (page 2) (-1); OpScene (Some 0%nat) true true;
                 OpSetCurrentIndex 1; OpSetCurrentIndex 0; OpRemove 0]
       offscreen).
Proof.
  apply X19_animator_never_started_twice.
  - exact I.
  - repeat constructor.
Defined.
